(** * File explorer: path helpers, expansion state, renderers and the
      directory-listing endpoint

    A shallow embedding of [src/main.ts] (the browser side) and of the
    Express handler for [/api/files/*] (the server side), followed by the
    properties established about them. *)

From stdpp Require Import gmap strings list pretty.
From Stdlib Require Import Ascii.

(** ** JavaScript string and array primitives used by the program *)

Module Js.

(** [s.split(sep)] for a one-character separator: the pieces between the
    occurrences of [sep], empty pieces included. *)
Fixpoint split (sep : ascii) (s : string) : list string :=
  match s with
  | EmptyString => [""]
  | String c rest =>
      if Ascii.eqb c sep then "" :: split sep rest
      else match split sep rest with
           | piece :: pieces => String c piece :: pieces
           | [] => [String c ""]
           end
  end.

(** [parts.join(sep)]. *)
Fixpoint join (sep : string) (parts : list string) : string :=
  match parts with
  | [] => ""
  | [part] => part
  | part :: rest => part +:+ sep +:+ join sep rest
  end.

(** [s.startsWith(prefix)]. *)
Fixpoint startsWith (s prefix : string) {struct prefix} : bool :=
  match prefix, s with
  | EmptyString, _ => true
  | String p prefix', String c s' => Ascii.eqb c p && startsWith s' prefix'
  | String _ _, EmptyString => false
  end.

(** [Boolean(s)] on a string: every string but the empty one is truthy. *)
Definition Boolean (s : string) : Prop := s ≠ "".

#[global] Instance Boolean_dec s : Decision (Boolean s).
Proof. unfold Boolean. apply _. Defined.

(** [parts.pop()], as used for its effect on the array. *)
Definition pop {A} (parts : list A) : list A := removelast parts.

(** [a === b] on strings. *)
Definition seq (a b : string) : bool := bool_decide (a = b).

End Js.

Infix "===" := Js.seq (at level 70, no associativity).

(** ** Pure helpers of [main.ts] *)

Definition buildPath (name parentPath : string) : string :=
  if parentPath === "/" then "/" +:+ name else parentPath +:+ "/" +:+ name.

Definition getParentPath (path : string) : string :=
  if (path === "/") || negb (bool_decide (Js.Boolean path)) then "/"
  else
    let parts := filter Js.Boolean (Js.split "/" path) in
    let parts := Js.pop parts in
    if bool_decide (length parts = 0) then "/" else "/" +:+ Js.join "/" parts.

(** ** Vocabulary of the path claims *)

(** A string that contains the character ['/']. *)
Fixpoint has_slash (s : string) : bool :=
  match s with
  | EmptyString => false
  | String c rest => Ascii.eqb c "/" || has_slash rest
  end.

(** A path segment: a non-empty name without ['/']. *)
Definition segment (s : string) : Prop := s ≠ "" ∧ has_slash s = false.

(** The paths the explorer works with: the root ['/'], or ['/'] followed by
    one or more segments separated by ['/']. *)
Inductive well_formed_path : string → Prop :=
  | wf_root : well_formed_path "/"
  | wf_segments (segs : list string) :
      segs ≠ [] → Forall segment segs →
      well_formed_path ("/" +:+ Js.join "/" segs).

(** ** Node's [path.join] on POSIX paths

    The server builds every path with [path.join], which concatenates its
    non-empty arguments with ['/'] and normalises the result: empty and
    ['.'] segments are dropped, a ['..'] segment removes the segment before
    it (and is itself dropped at the root of an absolute path), and a
    trailing ['/'] is kept. *)

Module NodePath.

Definition isAbsolute (path : string) : bool :=
  match path with
  | String c _ => Ascii.eqb c "/"
  | EmptyString => false
  end.

Fixpoint endsWithSlash (path : string) : bool :=
  match path with
  | EmptyString => false
  | String c EmptyString => Ascii.eqb c "/"
  | String _ rest => endsWithSlash rest
  end.

(** [normalizeString]: [res] is the stack of segments kept so far, the
    last one first. *)
Fixpoint normalizeSegments (allowAboveRoot : bool)
    (res : list string) (segs : list string) : list string :=
  match segs with
  | [] => rev res
  | seg :: rest =>
      if (seg === "") || (seg === ".") then
        normalizeSegments allowAboveRoot res rest
      else if seg === ".." then
        match res with
        | last :: res' =>
            if last === ".." then
              normalizeSegments allowAboveRoot
                (if allowAboveRoot then ".." :: res else res) rest
            else normalizeSegments allowAboveRoot res' rest
        | [] =>
            normalizeSegments allowAboveRoot
              (if allowAboveRoot then [".."] else []) rest
        end
      else normalizeSegments allowAboveRoot (seg :: res) rest
  end.

Definition normalizeString (path : string) (allowAboveRoot : bool) : string :=
  Js.join "/" (normalizeSegments allowAboveRoot [] (Js.split "/" path)).

Definition normalize (path : string) : string :=
  if path === "" then "."
  else
    let absolute := isAbsolute path in
    let trailingSeparator := endsWithSlash path in
    let path := normalizeString path (negb absolute) in
    if path === "" then
      if absolute then "/" else if trailingSeparator then "./" else "."
    else
      let path := if trailingSeparator then path +:+ "/" else path in
      if absolute then "/" +:+ path else path.

(** [path.join(a, b)]. *)
Definition join (a b : string) : string :=
  match bool_decide (a = ""), bool_decide (b = "") with
  | true, true => "."
  | true, false => normalize b
  | false, true => normalize a
  | false, false => normalize (a +:+ "/" +:+ b)
  end.

End NodePath.

(** ** The selector texts the explorer builds

    The explorer finds the tree item of a path with
    [querySelector(`[data-path="${path}"]`)]: the path is put into the
    selector text as it is. The text is read as CSS reads it (CSS Syntax,
    consume a string token): inside the double quotes a backslash starts an
    escape, a double quote ends the string and a line break is an error.
    What [querySelector] does with a text that is not one attribute
    selector of this form (the path held a double quote or a line break,
    or ended in a backslash) is left to the host. Strings are sequences of
    bytes, UTF-8 for what is not ASCII. *)

Module Css.

(** The characters the tokenizer treats specially: the double quote, the
    backslash, the line feed, the form feed, the carriage return, the tab
    and the null character. *)
Definition quote : ascii := "034"%char.
Definition backslash : ascii := "\"%char.
Definition lineFeed : ascii := "010"%char.
Definition formFeed : ascii := "012"%char.
Definition carriageReturn : ascii := "013"%char.
Definition tab : ascii := "009"%char.
Definition null : ascii := "000"%char.

(** The UTF-8 encoding of a code point. *)
Definition utf8 (cp : N) : string :=
  let byte (n : N) := String (ascii_of_N n) "" in
  (if cp <? 128 then byte cp
   else if cp <? 2048 then byte (192 + cp / 64) +:+ byte (128 + cp mod 64)
   else if cp <? 65536 then
     byte (224 + cp / 4096) +:+ byte (128 + (cp / 64) mod 64)
       +:+ byte (128 + cp mod 64)
   else
     byte (240 + cp / 262144) +:+ byte (128 + (cp / 4096) mod 64)
       +:+ byte (128 + (cp / 64) mod 64) +:+ byte (128 + cp mod 64))%N.

(** U+FFFD, the replacement character. *)
Definition replacement : string := utf8 65533%N.

(** Preprocessing of the input: a carriage return, a form feed and a
    carriage return followed by a line feed become one line feed, a null
    character becomes U+FFFD. *)
Fixpoint preprocess (input : string) : string :=
  match input with
  | EmptyString => ""
  | String c rest =>
      if Ascii.eqb c carriageReturn then
        String lineFeed
          match rest with
          | String d rest' =>
              if Ascii.eqb d lineFeed then preprocess rest' else preprocess rest
          | EmptyString => ""
          end
      else if Ascii.eqb c formFeed then String lineFeed (preprocess rest)
      else if Ascii.eqb c null then replacement +:+ preprocess rest
      else String c (preprocess rest)
  end.

(** The value of a hex digit. *)
Definition hexValue (c : ascii) : option N :=
  let n := N_of_ascii c in
  (if (48 <=? n) && (n <=? 57) then Some (n - 48)
   else if (65 <=? n) && (n <=? 70) then Some (n - 55)
   else if (97 <=? n) && (n <=? 102) then Some (n - 87)
   else None)%N.

Definition isWhitespace (c : ascii) : bool :=
  Ascii.eqb c lineFeed || Ascii.eqb c tab || Ascii.eqb c " ".

(** The code point a hex escape stands for. *)
Definition escaped (value : N) : string :=
  if ((value =? 0) || ((55296 <=? value) && (value <=? 57343))
      || (1114111 <? value))%N
  then replacement else utf8 value.

(** What consuming a string token comes to: the ending quote was reached,
    with the value of the token and the input that follows it; the input
    ended inside the string; or the string holds a line feed that is not
    escaped. *)
Inductive StringToken :=
  | Closed (value rest : string)
  | Unclosed
  | BadString.

Definition push (s : string) (token : StringToken) : StringToken :=
  match token with
  | Closed value rest => Closed (s +:+ value) rest
  | other => other
  end.

(** Where the tokenizer is inside the string: outside an escape, just
    after a backslash, or inside a hex escape of which [digits] digits of
    value [value] were read. *)
Inductive Lexer :=
  | Plain
  | Escape
  | Hex (digits : nat) (value : N).

(** Consume a string token that a double quote opened. A backslash before
    a line feed continues the line; before up to six hex digits, and one
    white space after them, it stands for the code point of that number;
    before anything else it stands for that character. *)
Fixpoint consumeString (state : Lexer) (input : string) : StringToken :=
  match input with
  | EmptyString => Unclosed
  | String c rest =>
      match state with
      | Plain =>
          if Ascii.eqb c quote then Closed "" rest
          else if Ascii.eqb c lineFeed then BadString
          else if Ascii.eqb c backslash then consumeString Escape rest
          else push (String c "") (consumeString Plain rest)
      | Escape =>
          if Ascii.eqb c lineFeed then consumeString Plain rest
          else match hexValue c with
               | Some d => consumeString (Hex 1 d) rest
               | None => push (String c "") (consumeString Plain rest)
               end
      | Hex digits value =>
          match hexValue c with
          | Some d =>
              if bool_decide (digits < 6) then
                consumeString (Hex (S digits) (16 * value + d)%N) rest
              else push (escaped value) (push (String c "") (consumeString Plain rest))
          | None =>
              push (escaped value)
                (if isWhitespace c then consumeString Plain rest
                 else if Ascii.eqb c quote then Closed "" rest
                 else if Ascii.eqb c backslash then consumeString Escape rest
                 else push (String c "") (consumeString Plain rest))
          end
      end
  end.

(** [s] without its prefix [prefix]. *)
Fixpoint stripPrefix (prefix s : string) : option string :=
  match prefix, s with
  | EmptyString, _ => Some s
  | String p prefix', String c s' =>
      if Ascii.eqb c p then stripPrefix prefix' s' else None
  | String _ _, EmptyString => None
  end.

(** The selector texts read here: [[data-path=] followed by a string
    token in double quotes and the closing bracket, with nothing after
    it. The answer is the value of the string token. *)
Definition attributeSelector (selectors : string) : option string :=
  match stripPrefix ("[data-path=" +:+ String quote "") (preprocess selectors) with
  | Some input =>
      match consumeString Plain input with
      | Closed value rest => if bool_decide (rest = "]") then Some value else None
      | _ => None
      end
  | None => None
  end.

(** A character that means itself inside a string token, and a string of
    such characters: no double quote, backslash, line break or null
    character. *)
Definition ordinary (c : ascii) : bool :=
  negb (Ascii.eqb c quote || Ascii.eqb c backslash || Ascii.eqb c lineFeed
        || Ascii.eqb c formFeed || Ascii.eqb c carriageReturn || Ascii.eqb c null).

Fixpoint plain (s : string) : bool :=
  match s with
  | EmptyString => true
  | String c rest => ordinary c && plain rest
  end.

End Css.

(** The two kinds of entries, ['file'] and ['folder']. *)
Inductive FileType := file | folder.

(** ** The directory-listing endpoint, [GET /api/files/*] *)

Module Server.

(** What [fs.stat] resolves to: the three fields the handler reads. *)
Record Stats := {
  isDirectory : bool;
  mtime : string;
  size : Z
}.

(** The filesystem as the handler observes it: a call either resolves or
    rejects ([None]). *)
Record FileSystem := {
  stat : string → option Stats;
  readdir : string → option (list string)
}.

Inductive FsCall :=
  | CallStat (path : string)
  | CallReaddir (path : string).

(** One entry of the JSON answer; [children] is [[]] for a directory and
    absent otherwise. *)
Record Item := {
  type : FileType;
  name : string;
  modified : string;
  itemSize : Z;
  children : option (list Empty_set)
}.

Inductive Body :=
  | ErrorJson (error : string)
  | ItemsJson (items : list Item).

Record Response := {
  status : nat;
  body : Body
}.

(** [req.params[0]], the part of the URL matched by the ['*']. *)
Record Request := { params0 : option string }.

(** Computations that call the filesystem: the value, unless a call
    rejected, and the calls issued, in order. *)
Definition Fs (A : Type) : Type := FileSystem → option A * list FsCall.

#[global] Instance Fs_ret : MRet Fs := λ A a _, (Some a, []).

#[global] Instance Fs_bind : MBind Fs := λ A B k m fs,
  match m fs with
  | (Some a, calls) => let '(b, calls') := k a fs in (b, calls ++ calls')
  | (None, calls) => (None, calls)
  end.

Definition fs_stat (path : string) : Fs Stats :=
  λ fs, (stat fs path, [CallStat path]).

Definition fs_readdir (path : string) : Fs (list string) :=
  λ fs, (readdir fs path, [CallReaddir path]).

(** [Promise.all] over computations that were all started: every call is
    issued, and the whole rejects when one of them does. *)
Fixpoint promise_all {A} (ms : list (Fs A)) : Fs (list A) := λ fs,
  match ms with
  | [] => (Some [], [])
  | m :: ms' =>
      let '(a, calls) := m fs in
      let '(rest, calls') := promise_all ms' fs in
      (match a, rest with
       | Some a, Some rest => Some (a :: rest)
       | _, _ => None
       end, calls ++ calls')
  end.

Definition json (code : nat) (b : Body) : Response :=
  {| status := code; body := b |}.

(** [req.params[0] || '']. *)
Definition requestedPath (req : Request) : string :=
  match params0 req with
  | Some p => if bool_decide (Js.Boolean p) then p else ""
  | None => ""
  end.

(** The object built from a child's name and its stat result. *)
Definition itemOf (name : string) (itemStats : Stats) : Item :=
  {| type := if isDirectory itemStats then folder else file;
     name := name;
     modified := mtime itemStats;
     itemSize := size itemStats;
     children := if isDirectory itemStats then Some [] else None |}.

(** The function mapped over the directory's contents. *)
Definition describe (fullPath name : string) : Fs Item :=
  let itemPath := NodePath.join fullPath name in
  itemStats ← fs_stat itemPath;
  mret (itemOf name itemStats).

(** The body of the [try] block. *)
Definition listFilesBody (dirname : string) (req : Request) : Fs Response :=
  let fullPath := NodePath.join dirname (requestedPath req) in
  if negb (Js.startsWith fullPath dirname) then
    mret (json 403 (ErrorJson "Access denied"))
  else
    stats ← fs_stat fullPath;
    if negb (isDirectory stats) then
      mret (json 400 (ErrorJson "Not a directory"))
    else
      contents ← fs_readdir fullPath;
      items ← promise_all (map (describe fullPath) contents);
      mret (json 200 (ItemsJson items)).

(** The handler: the [try] block, and the [catch] that answers 500. *)
Definition listFiles (dirname : string) (req : Request)
    (fs : FileSystem) : Response * list FsCall :=
  match listFilesBody dirname req fs with
  | (Some res, calls) => (res, calls)
  | (None, calls) => (json 500 (ErrorJson "Internal server error"), calls)
  end.

(** The path the handler resolves a request to. *)
Definition resolvedPath (dirname : string) (req : Request) : string :=
  NodePath.join dirname (requestedPath req).

(** [path] lies inside the directory [dir]: it is [dir] itself or a path
    below it, that is [dir] continued by a ['/'], which [dir] may already
    end in, as the root directory does. *)
Definition inside (dir path : string) : Prop :=
  path = dir ∨
  Js.startsWith path (if NodePath.endsWithSlash dir then dir else dir +:+ "/") = true.

(** A call rejects on the filesystem [fs]. *)
Definition rejects (fs : FileSystem) (c : FsCall) : Prop :=
  match c with
  | CallStat path => stat fs path = None
  | CallReaddir path => readdir fs path = None
  end.

End Server.

(** ** A model of the DOM the explorer renders into

    Elements carry the attributes the program sets; a reference to a node
    of a view is its position under the root of that view, so that a
    mutation through a reference is an update at that position. *)

Module Dom.

(** The click listeners the program installs. Each stands for the arrow
    function in the source that calls [handleFolderSelect]; the ones of
    the list view read [state.currentPath] when the click happens. *)
Inductive Listener :=
  | SelectFromTree (itemPath : string)
  | SelectFromList (itemName : string)
  | SelectParent.

Record Attrs := {
  tagName : string;
  classList : list string;
  style : option string;
  dataPath : option string;
  onClick : option Listener
}.

(** An element and its child nodes: text ([inl]) or elements ([inr]). *)
#[warnings="-register-all"]
Inductive Element :=
  | El (attrs : Attrs) (childNodes : list (string + Element)).

Definition attrs (e : Element) : Attrs := let 'El a _ := e in a.
Definition childNodes (e : Element) : list (string + Element) :=
  let 'El _ ns := e in ns.

Definition setAttrs (f : Attrs → Attrs) (e : Element) : Element :=
  El (f (attrs e)) (childNodes e).

(** [e.children]: the child elements, text nodes left out. *)
Definition children (e : Element) : list Element :=
  omap (λ n, match n with inr c => Some c | inl _ => None end) (childNodes e).

(** [e.textContent]: the text of all descendants, in document order. *)
Fixpoint textContent (e : Element) : string :=
  match e with
  | El _ ns =>
      (fix go (ns : list (string + Element)) : string :=
         match ns with
         | [] => ""
         | inl t :: rest => t +:+ go rest
         | inr c :: rest => textContent c +:+ go rest
         end) ns
  end.

Definition NodeRef := list nat.

(** The descendants of [e] in document order, each with its reference
    relative to [e]. *)
Fixpoint walk (e : Element) : list (NodeRef * Element) :=
  match e with
  | El _ ns =>
      (fix go (i : nat) (ns : list (string + Element)) : list (NodeRef * Element) :=
         match ns with
         | [] => []
         | inl _ :: rest => go (S i) rest
         | inr c :: rest =>
             ([i], c) :: map (λ rd, (i :: fst rd, snd rd)) (walk c) ++ go (S i) rest
         end) 0 ns
  end.

(** The same for a list of child nodes, the first of which has index
    [i]. *)
Definition walkNodes : nat → list (string + Element) → list (NodeRef * Element) :=
  fix go (i : nat) (ns : list (string + Element)) : list (NodeRef * Element) :=
    match ns with
    | [] => []
    | inl _ :: rest => go (S i) rest
    | inr c :: rest =>
        ([i], c) :: map (λ rd, (i :: fst rd, snd rd)) (walk c) ++ go (S i) rest
    end.

(** The element a reference points to. *)
Fixpoint get (e : Element) (ref : NodeRef) : option Element :=
  match ref with
  | [] => Some e
  | i :: ref' =>
      match childNodes e !! i with
      | Some (inr c) => get c ref'
      | _ => None
      end
  end.

(** Mutation of the element a reference points to. *)
Fixpoint modifyAt (ref : NodeRef) (f : Element → Element) (e : Element) : Element :=
  match ref with
  | [] => f e
  | i :: ref' =>
      El (attrs e)
         (alter (λ n, match n with
                      | inr c => inr (modifyAt ref' f c)
                      | inl t => inl t
                      end) i (childNodes e))
  end.

(** The selectors the program uses, once parsed: an attribute selector
    [[data-path="..."]] whose string token has the value [value], [.a.b]
    and a tag name. *)
Inductive Selector :=
  | ByDataPath (value : string)
  | ByClasses (classes : list string)
  | ByTag (tag : string).

Definition matches (sel : Selector) (e : Element) : bool :=
  match sel with
  | ByDataPath value => bool_decide (dataPath (attrs e) = Some value)
  | ByClasses classes => bool_decide (classes ⊆ classList (attrs e))
  | ByTag tag => tagName (attrs e) === tag
  end.

Definition querySelectorAll (sel : Selector) (e : Element) : list (NodeRef * Element) :=
  List.filter (λ rd, matches sel (snd rd)) (walk e).

Definition querySelector (sel : Selector) (e : Element) : option (NodeRef * Element) :=
  head (querySelectorAll sel e).

(** [classList.add], [classList.remove], [classList.toggle(c, force)]
    and [classList.contains]. *)
Definition classList_add (c : string) (e : Element) : Element :=
  setAttrs (λ a, {| tagName := tagName a;
                    classList := if bool_decide (c ∈ classList a) then classList a
                                 else classList a ++ [c];
                    style := style a; dataPath := dataPath a; onClick := onClick a |}) e.

Definition classList_remove (c : string) (e : Element) : Element :=
  setAttrs (λ a, {| tagName := tagName a;
                    classList := filter (λ c', c' ≠ c) (classList a);
                    style := style a; dataPath := dataPath a; onClick := onClick a |}) e.

Definition classList_toggle (c : string) (force : bool) (e : Element) : Element :=
  if force then classList_add c e else classList_remove c e.

(** [e.className = s]. *)
Definition setClassName (s : string) (e : Element) : Element :=
  setAttrs (λ a, {| tagName := tagName a; classList := String.words s;
                    style := style a; dataPath := dataPath a; onClick := onClick a |}) e.

(** [e.setAttribute('style', s)]. *)
Definition setStyle (s : string) (e : Element) : Element :=
  setAttrs (λ a, {| tagName := tagName a; classList := classList a;
                    style := Some s; dataPath := dataPath a; onClick := onClick a |}) e.

(** [e.dataset.path = p]. *)
Definition setDataPath (p : string) (e : Element) : Element :=
  setAttrs (λ a, {| tagName := tagName a; classList := classList a;
                    style := style a; dataPath := Some p; onClick := onClick a |}) e.

(** [e.addEventListener('click', l)]. *)
Definition addClickListener (l : Listener) (e : Element) : Element :=
  setAttrs (λ a, {| tagName := tagName a; classList := classList a;
                    style := style a; dataPath := dataPath a; onClick := Some l |}) e.

(** [e.textContent = s]. *)
Definition setTextContent (s : string) (e : Element) : Element :=
  El (attrs e) (if bool_decide (s = "") then [] else [inl s]).

(** [e.innerHTML = '']. *)
Definition clearInnerHTML (e : Element) : Element := El (attrs e) [].

(** [e.append(n1, n2, ...)], and [e.appendChild(fragment)] for a fragment
    holding these nodes. *)
Definition append (nodes : list (string + Element)) (e : Element) : Element :=
  El (attrs e) (childNodes e ++ nodes).

(** [document.createElement(tag)]. *)
Definition newElement (tag : string) : Element :=
  El {| tagName := tag; classList := []; style := None;
        dataPath := None; onClick := None |} [].

End Dom.

(** ** The explorer of [main.ts] *)

Module Explorer.
Import Dom.

Record ITreeNode := {
  type : FileType;
  name : string;
  modified : string;
  size : option Z
}.

Record ExplorerState := {
  expandedFolders : gset string;
  currentPath : string;
  treeView : Element;
  listView : Element
}.

Inductive Source := tree_source | list_source.

#[global] Instance Source_eq_dec : EqDecision Source.
Proof. solve_decision. Defined.

(** What a fetch of a folder's contents comes to. The promise rejects
    (the network fails, or the body is not JSON); or it resolves to data of
    the declared type [ITreeNode[]]; or it resolves to JSON that is not an
    array, as the [{error: ...}] object the server sends with the statuses
    400, 403 and 500 is: [fetchFolderContents] tests neither [response.ok]
    nor the shape of the data. *)
Inductive FetchResult :=
  | FetchRejected
  | FetchResolved (data : list ITreeNode)
  | FetchResolvedOther.

(** The value [fetchFolderContents] resolves to. *)
Inductive Json :=
  | JsonArray (items : list ITreeNode)
  | JsonOther.

(** What the program takes from its host: the locale rendering of a date,
    the text [formatSize] evaluates to on a byte count (floating-point
    arithmetic: [Math.log], a division and [toFixed]), the answer of the
    network to the [n]-th request, made for a given path, and what
    [querySelector] does with a selector text that [Css.attributeSelector]
    does not read, on a given element: it throws ([None]), or it returns
    [null] or the descendant at a position in document order. *)
Record Host := {
  toLocaleString : string → string;
  formatSize : Z → string;
  respond : nat → string → FetchResult;
  querySelectorOther : string → Element → option (option nat)
}.

(** How a call of [querySelector] with a selector text ends: it throws a
    [SyntaxError], or it returns the first match, if there is one. *)
Inductive Queried :=
  | Threw
  | Returned (found : option (NodeRef * Element)).

(** [e.querySelector(selectors)] for a selector text. *)
Definition querySelectorText (host : Host) (selectors : string)
    (e : Element) : Queried :=
  match Css.attributeSelector selectors with
  | Some value => Returned (querySelector (ByDataPath value) e)
  | None =>
      match querySelectorOther host selectors e with
      | Some (Some i) => Returned (walk e !! i)
      | Some None => Returned None
      | None => Threw
      end
  end.

(** The state of the explorer together with the requests sent so far: the
    paths [fetchFolderContents] was called with, the oldest first. *)
Record World := {
  state : ExplorerState;
  requests : list string
}.

(** An awaited promise settles: fulfilled with a value, or rejected. An
    exception thrown inside an asynchronous function rejects its
    promise. *)
Inductive Outcome (A : Type) :=
  | Fulfilled (a : A)
  | Rejected.
Arguments Fulfilled {A} a.
Arguments Rejected {A}.

(** Asynchronous functions: they run on the world and settle. A rejection
    leaves the mutations made so far in place. A call runs to its end
    before another one starts: no other handler runs while it awaits. *)
Definition Async (A : Type) : Type := World → Outcome A * World.

#[global] Instance Async_ret : MRet Async := λ A a w, (Fulfilled a, w).

#[global] Instance Async_bind : MBind Async := λ A B k m w,
  match m w with
  | (Fulfilled a, w') => k a w'
  | (Rejected, w') => (Rejected, w')
  end.

Definition getState : Async ExplorerState := λ w, (Fulfilled (state w), w).

Definition modifyState (f : ExplorerState → ExplorerState) : Async unit :=
  λ w, (Fulfilled (), {| state := f (state w); requests := requests w |}).

(** [throw]. *)
Definition throw {A} : Async A := λ w, (Rejected, w).

(** The result of a [querySelector] call, or the exception it threw. *)
Definition queried (q : Queried) : Async (option (NodeRef * Element)) :=
  match q with
  | Returned found => mret found
  | Threw => throw
  end.

(** *** DOM creation *)

Record IElementProps := {
  className : option string;
  textContent_ : option string;
  style_ : option string
}.

Definition noProps : IElementProps :=
  {| className := None; textContent_ := None; style_ := None |}.

(** [if (props.x) ...]: the property is given and not empty. *)
Definition whenGiven (v : option string) (f : string → Element → Element)
    (e : Element) : Element :=
  match v with
  | Some s => if bool_decide (Js.Boolean s) then f s e else e
  | None => e
  end.

Definition createElement (tag : string) (props : IElementProps) : Element :=
  let element := newElement tag in
  let element := whenGiven (className props) setClassName element in
  let element := whenGiven (textContent_ props) setTextContent element in
  let element := whenGiven (style_ props) setStyle element in
  element.

Definition createFolderIcon (isExpanded : bool) : Element :=
  let icon := createElement "span"
    {| className := Some "folder-icon"; textContent_ := None; style_ := None |} in
  if isExpanded then classList_add "open" icon else icon.

Definition createFileIcon : Element :=
  createElement "span"
    {| className := Some "file-icon"; textContent_ := None; style_ := None |}.

Definition createIcon (type : FileType) (isExpanded : bool) : Element :=
  match type with
  | folder => createFolderIcon isExpanded
  | file => createFileIcon
  end.

(** [v || '--']. *)
Definition orDashes (v : option string) : string :=
  match v with
  | Some s => if bool_decide (Js.Boolean s) then s else "--"
  | None => "--"
  end.

Definition createListRow (icon : Element) (text : string)
    (modified size : option string) (onClick : option Listener) : Element :=
  let row := createElement "tr"
    {| className := Some "list-item"; textContent_ := None; style_ := None |} in
  let nameCell := createElement "td" noProps in
  let nameCell := append [inr icon; inl text] nameCell in
  let row := append
    [inr nameCell;
     inr (createElement "td"
       {| className := None; textContent_ := Some (orDashes modified); style_ := None |});
     inr (createElement "td"
       {| className := None; textContent_ := Some (orDashes size); style_ := None |})]
    row in
  match onClick with
  | Some l => addClickListener l row
  | None => row
  end.

(** *** State *)

Definition createInitialState (treeView listView : Element) : ExplorerState :=
  {| expandedFolders := {["/"]};
     currentPath := "/";
     treeView := treeView;
     listView := listView |}.

Definition setExpandedFolders (s : gset string) (st : ExplorerState) : ExplorerState :=
  {| expandedFolders := s; currentPath := currentPath st;
     treeView := treeView st; listView := listView st |}.

Definition setCurrentPath (p : string) (st : ExplorerState) : ExplorerState :=
  {| expandedFolders := expandedFolders st; currentPath := p;
     treeView := treeView st; listView := listView st |}.

Definition setTreeView (e : Element) (st : ExplorerState) : ExplorerState :=
  {| expandedFolders := expandedFolders st; currentPath := currentPath st;
     treeView := e; listView := listView st |}.

Definition setListView (e : Element) (st : ExplorerState) : ExplorerState :=
  {| expandedFolders := expandedFolders st; currentPath := currentPath st;
     treeView := treeView st; listView := e |}.

(** [state.expandedFolders.has(p)]. *)
Definition has (st : ExplorerState) (p : string) : bool :=
  bool_decide (p ∈ expandedFolders st).

(** *** Network *)

Definition fetchFolderContents (host : Host) (path : string) : Async Json :=
  λ w,
    let w' := {| state := state w; requests := requests w ++ [path] |} in
    match respond host (length (requests w)) path with
    | FetchResolved data => (Fulfilled (JsonArray data), w')
    | FetchResolvedOther => (Fulfilled JsonOther, w')
    | FetchRejected => (Rejected, w')
    end.

(** *** Renderers *)

(** The row of the list view for the parent directory. *)
Definition parentRow : Element :=
  createListRow (createFolderIcon false) "..." None None (Some SelectParent).

(** The row of the list view for one item of the listing. *)
Definition itemRow (host : Host) (st : ExplorerState) (item : ITreeNode) : Element :=
  let icon := createIcon (type item)
    (match type item with
     | folder => has st (buildPath (name item) (currentPath st))
     | file => false
     end) in
  createListRow icon (name item)
    (Some (toLocaleString host (modified item)))
    (Some (match type item with
           | file => formatSize host (default 0%Z (size item))
           | folder => "--"
           end))
    (match type item with
     | folder => Some (SelectFromList (name item))
     | file => None
     end).

(** [updateListView(state, data)] on an array [data]. *)
Definition updateListView (host : Host) (st : ExplorerState)
    (data : list ITreeNode) : ExplorerState :=
  let fragment :=
    (if negb (currentPath st === "/") then [parentRow] else [])
    ++ map (itemRow host st) data in
  setListView (append (map inr fragment) (clearInnerHTML (listView st))) st.

(** The node of the tree view for one item of a listing. *)
Definition treeNode (level : nat) (parentPath : string) (item : ITreeNode) : Element :=
  let itemPath := buildPath (name item) parentPath in
  let div := createElement "div"
    {| className := Some "tree-item"; textContent_ := None;
       style_ := Some ("--level: " +:+ pretty (level + 1)) |} in
  let div := setDataPath itemPath div in
  let icon := createIcon (type item) false in
  let itemContent := createElement "span" noProps in
  let itemContent := append
    [inr icon;
     inr (createElement "span"
       {| className := None; textContent_ := Some (name item); style_ := None |})]
    itemContent in
  match type item with
  | folder =>
      let childContainer := createElement "div"
        {| className := Some "tree-children"; textContent_ := None; style_ := None |} in
      append [inr (addClickListener (SelectFromTree itemPath) itemContent);
              inr childContainer] div
  | file => append [inr itemContent] div
  end.

(** [updateTreeView(state, data, parentElement, level, parentPath)] on an
    array [data]: what [parentElement] becomes. *)
Definition updateTreeView (data : list ITreeNode) (parentElement : Element)
    (level : nat) (parentPath : string) : Element :=
  if bool_decide (level = 0) then
    let rootIcon := createFolderIcon true in
    let rootDiv := createElement "div"
      {| className := Some "tree-item root-folder open"; textContent_ := None;
         style_ := Some "--level: 0" |} in
    let rootContent := createElement "span" noProps in
    let rootContent := append
      [inr rootIcon;
       inr (createElement "span"
         {| className := None; textContent_ := Some "Files"; style_ := None |})]
      rootContent in
    let childContainer := createElement "div"
      {| className := Some "tree-children"; textContent_ := None; style_ := None |} in
    let rootContent := addClickListener (SelectFromTree "/") rootContent in
    let childContainer :=
      append (map (λ item, inr (treeNode level "/" item)) data) childContainer in
    let rootDiv := setDataPath "/" (append [inr rootContent; inr childContainer] rootDiv) in
    append [inr rootDiv] (clearInnerHTML parentElement)
  else
    append (map (λ item, inr (treeNode level parentPath item)) data) parentElement.

(** *** The renderers on what a request resolved to

    On a value that is not an array [data.forEach] throws a [TypeError]:
    in [updateListView] before the list view is touched, in
    [updateTreeView] after the root item was drawn when the level is 0,
    and before anything is touched otherwise. *)

Definition modifyTree (ref : NodeRef) (f : Element → Element) : Async unit :=
  modifyState (λ st, setTreeView (modifyAt ref f (treeView st)) st).

(** [updateListView(state, data)]. *)
Definition callUpdateListView (host : Host) (data : Json) : Async unit :=
  match data with
  | JsonArray items => modifyState (λ st, updateListView host st items)
  | JsonOther => throw
  end.

(** [updateTreeView(state, data, parentElement, level, parentPath)] for
    the parent element at [ref] in the tree view. *)
Definition callUpdateTreeView (data : Json) (ref : NodeRef) (level : nat)
    (parentPath : string) : Async unit :=
  match data with
  | JsonArray items =>
      modifyTree ref (λ parentElement,
        updateTreeView items parentElement level parentPath)
  | JsonOther =>
      (if bool_decide (level = 0) then
         modifyTree ref (λ parentElement,
           updateTreeView [] parentElement level parentPath)
       else mret ());;
      throw
  end.

(** One step of the loop of [updateListViewExpansion], on the list item
    at [itemRef]. *)
Definition refreshRowIcon (st : ExplorerState) (view : Element)
    (itemRef : NodeRef) : Element :=
  match get view itemRef with
  | Some item =>
      match querySelector (ByTag "td") item with
      | Some (cellRef, nameCell) =>
          let text := textContent nameCell in
          let itemPath := buildPath text (currentPath st) in
          match querySelector (ByClasses ["folder-icon"]) nameCell with
          | Some (iconRef, _) =>
              modifyAt (itemRef ++ cellRef ++ iconRef)
                (classList_toggle "open" (has st itemPath)) view
          | None => view
          end
      | None => view
      end
  | None => view
  end.

Definition updateListViewExpansion (st : ExplorerState) : ExplorerState :=
  let items := querySelectorAll (ByClasses ["list-item"]) (listView st) in
  setListView (foldl (refreshRowIcon st) (listView st) (map fst items)) st.

(** *** Event handlers *)

(** The loop over the set deletes the members it visits; the result does
    not depend on the order of the visit. *)
Definition removeExpandedFolder (st : ExplorerState) (path : string) : ExplorerState :=
  setExpandedFolders
    (set_fold (λ expandedPath (folders : gset string),
         if (expandedPath === path) || Js.startsWith expandedPath (path +:+ "/")
         then folders ∖ {[expandedPath]}
         else folders)
       (expandedFolders st) (expandedFolders st))
    st.

(** [view.querySelector(`[data-path="${path}"]`)]: the tree item the
    program finds for [path]. *)
Definition treeItemOf (host : Host) (view : Element) (path : string) : Queried :=
  querySelectorText host
    ("[data-path=" +:+ String Css.quote (path +:+ String Css.quote "]")) view.

(** The child container the program finds for [path]: the one inside the
    tree item it finds, with its reference in the view. *)
Definition childContainerOf (host : Host) (view : Element) (path : string) : Queried :=
  match treeItemOf host view path with
  | Returned found =>
      Returned (
        '(itemRef, treeItem) ← found;
        '(containerRef, childContainer) ←
          querySelector (ByClasses ["tree-children"]) treeItem;
        Some (itemRef ++ containerRef, childContainer))
  | Threw => Threw
  end.

(** [forceState !== undefined ? forceState : !isCurrentlyExpanded]. *)
Definition shouldExpand (st : ExplorerState) (path : string)
    (forceState : option bool) : bool :=
  match forceState with
  | Some force => force
  | None => negb (has st path)
  end.

Definition toggleFolderExpansion (host : Host) (path : string)
    (forceState : option bool) : Async unit :=
  if path === "/" then mret ()
  else
    st ← getState;
    let expand := shouldExpand st path forceState in
    modifyState (λ st,
      if expand then setExpandedFolders ({[path]} ∪ expandedFolders st) st
      else removeExpandedFolder st path);;
    st ← getState;
    found ← queried (treeItemOf host (treeView st) path);
    match found with
    | Some (itemRef, treeItem) =>
        let icon := querySelector (ByClasses ["folder-icon"]) treeItem in
        let childContainer := querySelector (ByClasses ["tree-children"]) treeItem in
        modifyTree itemRef (classList_toggle "open" expand);;
        match icon with
        | Some (iconRef, _) =>
            modifyTree (itemRef ++ iconRef) (classList_toggle "open" expand)
        | None => mret ()
        end;;
        match childContainer with
        | Some (containerRef, container) =>
            if expand && bool_decide (length (children container) = 0) then
              data ← fetchFolderContents host path;
              callUpdateTreeView data (itemRef ++ containerRef)
                (length (filter Js.Boolean (Js.split "/" path))) path
            else if negb expand then
              modifyTree (itemRef ++ containerRef) clearInnerHTML
            else mret ()
        | None => mret ()
        end
    | None => mret ()
    end;;
    modifyState updateListViewExpansion.

(** The loop of [expandTreeToPath], from the path built so far. *)
Fixpoint expandParts (host : Host) (pathParts : list string)
    (currentPath : string) : Async unit :=
  match pathParts with
  | [] => mret ()
  | part :: rest =>
      let currentPath := buildPath part currentPath in
      toggleFolderExpansion host currentPath (Some true);;
      expandParts host rest currentPath
  end.

Definition expandTreeToPath (host : Host) (path : string) : Async unit :=
  let pathParts := filter Js.Boolean (Js.split "/" path) in
  expandParts host pathParts "".

(** One step of the last loop of [updateSelection]. *)
Definition selectRow (fileName : string) (view : Element) (itemRef : NodeRef) : Element :=
  match get view itemRef with
  | Some item =>
      match querySelector (ByTag "td") item with
      | Some (_, nameCell) =>
          if textContent nameCell === fileName
          then modifyAt itemRef (classList_add "selected") view
          else view
      | None => view
      end
  | None => view
  end.

(** The first two loops of [updateSelection], on one view: the class
    ['selected'] is taken from the elements of class [cls] that have it. *)
Definition unselect (cls : string) (view : Element) : Element :=
  foldl (λ view ref, modifyAt ref (classList_remove "selected") view) view
    (map fst (querySelectorAll (ByClasses [cls; "selected"]) view)).

Definition updateSelection (host : Host) (path : string) : Async unit :=
  modifyState (λ st, setTreeView (unselect "tree-item" (treeView st)) st);;
  modifyState (λ st, setListView (unselect "list-item" (listView st)) st);;
  st ← getState;
  found ← queried (treeItemOf host (treeView st) path);
  match found with
  | Some (itemRef, _) => modifyTree itemRef (classList_add "selected")
  | None => mret ()
  end;;
  let fileName := default "" (last (Js.split "/" path)) in
  modifyState (λ st,
    setListView
      (foldl (selectRow fileName) (listView st)
         (map fst (querySelectorAll (ByClasses ["list-item"]) (listView st))))
      st).

Definition handleFolderSelect (host : Host) (path : string)
    (source : Source) : Async unit :=
  st ← getState;
  let previousPath := currentPath st in
  let isSamePath := previousPath === path in
  modifyState (setCurrentPath path);;
  (if bool_decide (source = tree_source) || negb isSamePath then
     data ← fetchFolderContents host path;
     callUpdateListView host data
   else mret ());;
  (if bool_decide (source = list_source) then expandTreeToPath host path
   else mret ());;
  (if bool_decide (source = tree_source) || isSamePath then
     toggleFolderExpansion host path None
   else mret ());;
  updateSelection host path.

(** [init] of the object [createFileExplorer] returns. *)
Definition init (host : Host) : Async unit :=
  data ← fetchFolderContents host "/";
  callUpdateTreeView data [] 0 "";;
  callUpdateListView host data.

(** What a click on an element with a listener runs. *)
Definition click (host : Host) (l : Listener) : Async unit :=
  match l with
  | SelectFromTree itemPath => handleFolderSelect host itemPath tree_source
  | SelectFromList itemName =>
      st ← getState;
      handleFolderSelect host (buildPath itemName (currentPath st)) list_source
  | SelectParent =>
      st ← getState;
      handleFolderSelect host (getParentPath (currentPath st)) list_source
  end.

(** The paths the loop of [expandTreeToPath] builds, in order. *)
Fixpoint visitedPaths (pathParts : list string) (currentPath : string) : list string :=
  match pathParts with
  | [] => []
  | part :: rest =>
      let currentPath := buildPath part currentPath in
      currentPath :: visitedPaths rest currentPath
  end.

(** [q] is the path [p] or an ancestor of it: [p] is [q] or continues
    [q] with a ['/']. *)
Definition ancestorOrSelf (q p : string) : Prop :=
  q = p ∨ Js.startsWith p (q +:+ "/") = true.

(** The label of a row: the text of its first cell. *)
Definition rowLabel (row : Element) : option string :=
  (λ cell, textContent (snd cell)) <$> querySelector (ByTag "td") row.

(** The folders after the update of the set at the start of
    [toggleFolderExpansion]. *)
Definition toggled (st : ExplorerState) (path : string) (expand : bool) : ExplorerState :=
  if expand then setExpandedFolders ({[path]} ∪ expandedFolders st) st
  else removeExpandedFolder st path.

(** The tree after the two class toggles of [toggleFolderExpansion]. *)
Definition toggledTree (view : Element) (itemRef : NodeRef) (treeItem : Element)
    (expand : bool) : Element :=
  let view := modifyAt itemRef (classList_toggle "open" expand) view in
  match querySelector (ByClasses ["folder-icon"]) treeItem with
  | Some (iconRef, _) =>
      modifyAt (itemRef ++ iconRef) (classList_toggle "open" expand) view
  | None => view
  end.

(** A relation on states that an asynchronous function maintains,
    however it settles. *)
Definition preserves (Rs : relation ExplorerState) {A} (m : Async A) : Prop :=
  ∀ w, Rs (state w) (state (snd (m w))).

(** The root stays expanded. *)
Definition keepsRoot : relation ExplorerState :=
  λ st st', "/" ∈ expandedFolders st → "/" ∈ expandedFolders st'.

(** The expansion set only grows and the current path stays. *)
Definition grows : relation ExplorerState :=
  λ st st', expandedFolders st ⊆ expandedFolders st' ∧
            currentPath st' = currentPath st.

(** The world a fresh explorer starts from. *)
Definition createFileExplorer (treeView listView : Element) : World :=
  {| state := createInitialState treeView listView; requests := [] |}.

(** The worlds reached from a fresh explorer through [init],
    [handleFolderSelect] and [toggleFolderExpansion], the last two on
    paths produced by [buildPath]. A call that rejects still leaves a
    reached world behind. *)
Inductive Reachable (host : Host) : World → Prop :=
  | reach_created treeView listView :
      Reachable host (createFileExplorer treeView listView)
  | reach_init w :
      Reachable host w → Reachable host (snd (init host w))
  | reach_select w name parentPath source :
      Reachable host w →
      Reachable host
        (snd (handleFolderSelect host (buildPath name parentPath) source w))
  | reach_toggle w name parentPath forceState :
      Reachable host w →
      Reachable host
        (snd (toggleFolderExpansion host (buildPath name parentPath) forceState w)).

End Explorer.

(** ** Sample inputs *)

Module ServerSamples.
Import Server.

(** A directory whose second entry is a dangling link. *)
Definition dangling_fs : FileSystem := {|
  stat p :=
    if p === "/srv/app/docs" then
      Some {| isDirectory := true; mtime := "2024-05-01T10:00:00.000Z"; size := 4096 |}
    else if p === "/srv/app/docs/a.txt" then
      Some {| isDirectory := false; mtime := "2024-05-02T08:30:00.000Z"; size := 12 |}
    else None;
  readdir p := if p === "/srv/app/docs" then Some ["a.txt"; "stale-link"] else None
|}.

(** A directory with one file and one sub-directory. *)
Definition sample_fs : FileSystem := {|
  stat p :=
    if p === "/srv/app" then
      Some {| isDirectory := true; mtime := "2024-05-01T10:00:00.000Z"; size := 4096 |}
    else if p === "/srv/app/server.js" then
      Some {| isDirectory := false; mtime := "2024-05-02T08:30:00.000Z"; size := 1406 |}
    else if p === "/srv/app/public" then
      Some {| isDirectory := true; mtime := "2024-05-03T09:00:00.000Z"; size := 4096 |}
    else if p === "/srv/app-secrets" then
      Some {| isDirectory := true; mtime := "2024-01-01T00:00:00.000Z"; size := 4096 |}
    else if p === "/srv/app-secrets/key.pem" then
      Some {| isDirectory := false; mtime := "2024-01-01T00:00:00.000Z"; size := 1704 |}
    else None;
  readdir p :=
    if p === "/srv/app" then Some ["server.js"; "public"]
    else if p === "/srv/app-secrets" then Some ["key.pem"]
    else None
|}.

(** A project directory that also holds a plain file and an unreadable
    directory. *)
Definition faulty_fs : FileSystem := {|
  stat p :=
    if p === "/srv/app/README.md" then
      Some {| isDirectory := false; mtime := "2024-05-02T08:30:00.000Z"; size := 900 |}
    else if p === "/srv/app/private" then
      Some {| isDirectory := true; mtime := "2024-05-02T08:30:00.000Z"; size := 4096 |}
    else None;
  readdir p := None
|}.

End ServerSamples.

Module ExplorerSamples.
Import Dom Explorer.

(** A host that answers for a small tree: [/] holds the folder [docs] and
    a file, [/docs] holds the folder [sub], which is empty; for a path
    that does not exist the server answers with an [{error: ...}] object,
    and the requests below [/offline] fail. *)
Definition sample_host : Host := {|
  toLocaleString d := d;
  formatSize n := pretty n +:+ "B";
  querySelectorOther _ _ := None;
  respond n p :=
    if p === "/" then
      FetchResolved
        [{| type := folder; name := "docs";
            modified := "2024-05-01T10:00:00.000Z"; size := None |};
         {| type := file; name := "a.txt";
            modified := "2024-05-02T08:30:00.000Z"; size := Some 12%Z |}]
    else if (p === "/docs") || (p === "/docs/") then
      FetchResolved
        [{| type := folder; name := "sub";
            modified := "2024-05-03T09:00:00.000Z"; size := None |}]
    else if p === "/docs/sub" then FetchResolved []
    else if Js.startsWith p "/offline" then FetchRejected
    else FetchResolvedOther
|}.

(** A fresh explorer, and the same after [init]. *)
Definition fresh : World :=
  createFileExplorer (newElement "div") (newElement "tbody").

Definition browsing : World := snd (init sample_host fresh).

(** A host whose root holds one folder, named [a\b], which is empty,
    and the explorer after [init] on it. *)
Definition unescaped_host : Host := {|
  toLocaleString d := d;
  formatSize n := pretty n +:+ "B";
  querySelectorOther _ _ := None;
  respond n p :=
    if p === "/" then
      FetchResolved
        [{| type := folder; name := "a\b";
            modified := "2024-05-01T10:00:00.000Z"; size := None |}]
    else if p === "/a\b" then FetchResolved []
    else FetchResolvedOther
|}.

Definition unescaped : World := snd (init unescaped_host fresh).

(** A state with a folder, one of its children and a sibling that shares
    its name as a prefix expanded. *)
Definition parents : ExplorerState :=
  {| expandedFolders := {["/"; "/parent"; "/parent/child1"; "/parent2"]};
     currentPath := "/";
     treeView := newElement "div";
     listView := newElement "tbody" |}.

End ExplorerSamples.

(** * Properties *)

(** ** Paths *)

Section PathFacts.

Implicit Types (s a b name : string) (segs parts : list string).

Lemma seq_true a b : (a === b) = true ↔ a = b.
Proof. unfold Js.seq. apply bool_decide_eq_true. Qed.

Lemma seq_false a b : (a === b) = false ↔ a ≠ b.
Proof. unfold Js.seq. apply bool_decide_eq_false. Qed.

Lemma append_cons c a b : String c a +:+ b = String c (a +:+ b).
Proof. reflexivity. Qed.

Lemma append_nil b : "" +:+ b = b.
Proof. reflexivity. Qed.

Lemma append_assoc a b c : (a +:+ b) +:+ c = a +:+ b +:+ c.
Proof.
  induction a as [|x a IH]; [done|].
  rewrite !append_cons. by rewrite IH.
Qed.

Lemma split_nonnil s : Js.split "/" s ≠ [].
Proof.
  destruct s as [|c s]; simpl; [done|].
  destruct (Ascii.eqb c "/"); [done|].
  by destruct (Js.split "/" s).
Qed.

(** Splitting distributes over a separator in the middle. *)
Lemma split_app_sep a b :
  Js.split "/" (a +:+ "/" +:+ b) = Js.split "/" a ++ Js.split "/" b.
Proof.
  induction a as [|c a IH]; [done|].
  rewrite append_cons. simpl.
  rewrite IH. destruct (Ascii.eqb c "/"); [done|].
  pose proof (split_nonnil a) as Hne.
  by destruct (Js.split "/" a).
Qed.

Lemma split_slash_free s : has_slash s = false → Js.split "/" s = [s].
Proof.
  induction s as [|c s IH]; simpl; [done|].
  intros [Hc Hs]%orb_false_iff. rewrite Hc, (IH Hs). done.
Qed.

Lemma split_join segs :
  segs ≠ [] → Forall segment segs → Js.split "/" (Js.join "/" segs) = segs.
Proof.
  induction segs as [|x [|y segs] IH]; intros Hne Hall; [done| |].
  - simpl. apply split_slash_free. by inversion Hall as [|?? [_ ?]].
  - change (Js.join "/" (x :: y :: segs))
      with (x +:+ "/" +:+ Js.join "/" (y :: segs)).
    rewrite split_app_sep, IH; [|done|by inversion Hall].
    rewrite split_slash_free; [done|]. by inversion Hall as [|?? [_ ?]].
Qed.

Lemma filter_segments segs :
  Forall segment segs → filter Js.Boolean segs = segs.
Proof.
  induction 1 as [|x segs [Hx _] _ IH]; [done|].
  rewrite filter_cons_True by done. by rewrite IH.
Qed.

Lemma pop_snoc {A} (l : list A) x : Js.pop (l ++ [x]) = l.
Proof. unfold Js.pop. apply removelast_last. Qed.

Lemma join_snoc segs name :
  segs ≠ [] → Js.join "/" (segs ++ [name]) = Js.join "/" segs +:+ "/" +:+ name.
Proof.
  induction segs as [|x [|y segs] IH]; intros Hne; [done|done|].
  change (Js.join "/" ((x :: y :: segs) ++ [name]))
    with (x +:+ "/" +:+ Js.join "/" ((y :: segs) ++ [name])).
  rewrite IH by done.
  change (Js.join "/" (x :: y :: segs))
    with (x +:+ "/" +:+ Js.join "/" (y :: segs)).
  by rewrite !append_assoc.
Qed.

(** The non-empty pieces of a well-formed path are its segments. *)
Lemma parts_of_path segs :
  Forall segment segs →
  filter Js.Boolean (Js.split "/" ("/" +:+ Js.join "/" segs)) = segs.
Proof.
  intros Hall. destruct (decide (segs = [])) as [->|Hne]; [done|].
  change (Js.split "/" ("/" +:+ Js.join "/" segs))
    with ("" :: Js.split "/" (Js.join "/" segs)).
  rewrite split_join by done.
  rewrite filter_cons_False by (by intros []).
  by apply filter_segments.
Qed.

Lemma getParentPath_child segs name :
  Forall segment segs → segment name →
  getParentPath ("/" +:+ Js.join "/" (segs ++ [name]))
  = if bool_decide (segs = []) then "/" else "/" +:+ Js.join "/" segs.
Proof.
  intros Hall Hname. unfold getParentPath.
  assert (Hpath : "/" +:+ Js.join "/" (segs ++ [name]) ≠ "/").
  { destruct segs as [|x [|y segs]]; simpl.
    - destruct Hname as [Hn _]. destruct name; [done|]. discriminate.
    - inversion Hall as [|?? [Hx _]]. destruct x; [done|]. discriminate.
    - inversion Hall as [|?? [Hx _]]. destruct x; [done|]. discriminate. }
  apply seq_false in Hpath. rewrite Hpath.
  rewrite (bool_decide_eq_true_2 (Js.Boolean _)) by (intros H; discriminate H).
  cbn [orb negb].
  rewrite parts_of_path by (apply Forall_app; split; [done|by constructor]).
  rewrite pop_snoc.
  destruct segs; [done|]. done.
Qed.

End PathFacts.

(** C3. [getParentPath] undoes [buildPath]: for a non-empty name without
    ['/'] and a parent path that is ['/'] or ['/'] followed by one or more
    non-empty segments separated by ['/'],
    [getParentPath (buildPath name parentPath) = parentPath]. *)
Theorem getParentPath_buildPath (name parentPath : string) :
  segment name → well_formed_path parentPath →
  getParentPath (buildPath name parentPath) = parentPath.
Proof.
  intros Hname [|segs Hne Hall]; unfold buildPath.
  - replace ("/" === "/") with true by (symmetry; by apply seq_true).
    exact (getParentPath_child [] name (Forall_nil_2 _) Hname).
  - assert (Hnr : "/" +:+ Js.join "/" segs ≠ "/").
    { destruct segs as [|x segs]; [done|].
      inversion Hall as [|?? [Hx _]]; subst. destruct x; [done|].
      destruct segs; discriminate. }
    apply seq_false in Hnr. rewrite Hnr.
    replace (("/" +:+ Js.join "/" segs) +:+ "/" +:+ name)
      with ("/" +:+ Js.join "/" (segs ++ [name])).
    + rewrite getParentPath_child by done.
      by rewrite bool_decide_eq_false_2.
    + rewrite join_snoc by done. done.
Qed.

Lemma getParentPath_buildPath_witness :
  segment "notes.txt" ∧ well_formed_path "/docs/2024" ∧
  getParentPath (buildPath "notes.txt" "/docs/2024") = "/docs/2024".
Proof.
  assert (Hseg : segment "notes.txt") by (split; [discriminate|reflexivity]).
  assert (Hwf : well_formed_path "/docs/2024").
  { apply (wf_segments ["docs"; "2024"]); [discriminate|].
    repeat constructor; discriminate. }
  split; [exact Hseg|]. split; [exact Hwf|].
  exact (getParentPath_buildPath "notes.txt" "/docs/2024" Hseg Hwf).
Defined.

(** ** The directory-listing endpoint *)

Module ServerFacts.
Import Server ServerSamples.

Lemma startsWith_refl s : Js.startsWith s s = true.
Proof.
  induction s as [|c s IH]; [done|]. simpl.
  by rewrite Ascii.eqb_refl, IH.
Qed.

Lemma startsWith_app_l s a b :
  Js.startsWith s (a +:+ b) = true → Js.startsWith s a = true.
Proof.
  revert s. induction a as [|c a IH]; intros s; [by destruct s|].
  rewrite append_cons. destruct s as [|d s]; simpl; [done|].
  intros [Hc Hs]%andb_true_iff. rewrite Hc. simpl. by apply IH.
Qed.

(** A path inside the directory passes the handler's prefix test. *)
Lemma inside_startsWith dir path :
  inside dir path → Js.startsWith path dir = true.
Proof.
  intros [->|H]; [apply startsWith_refl|].
  destruct (NodePath.endsWithSlash dir); [done|]. by apply startsWith_app_l in H.
Qed.

(** What [Promise.all] over the children's descriptions amounts to: one
    stat per name, all issued, the items when every stat resolved. *)
Lemma promise_all_describe fs fullPath names :
  promise_all (map (describe fullPath) names) fs
  = (mapM (λ name, itemOf name <$> stat fs (NodePath.join fullPath name)) names,
     map (λ name, CallStat (NodePath.join fullPath name)) names).
Proof.
  induction names as [|name names IH]; [done|].
  cbn [map promise_all]. rewrite IH.
  unfold describe at 1, fs_stat, mbind, Fs_bind, mret, Fs_ret.
  cbn [mapM].
  destruct (stat fs (NodePath.join fullPath name)) as [st|]; cbn;
    [|done].
  by destruct (mapM _ names).
Qed.

(** The handler unfolded along its decisions. *)
Lemma listFiles_unfold dirname req fs :
  let fullPath := resolvedPath dirname req in
  listFiles dirname req fs =
    if negb (Js.startsWith fullPath dirname) then
      (json 403 (ErrorJson "Access denied"), [])
    else match stat fs fullPath with
    | None => (json 500 (ErrorJson "Internal server error"), [CallStat fullPath])
    | Some stats =>
        if negb (isDirectory stats) then
          (json 400 (ErrorJson "Not a directory"), [CallStat fullPath])
        else match readdir fs fullPath with
        | None => (json 500 (ErrorJson "Internal server error"),
                   [CallStat fullPath; CallReaddir fullPath])
        | Some names =>
            (match mapM (λ name, itemOf name <$> stat fs (NodePath.join fullPath name)) names with
             | Some items => json 200 (ItemsJson items)
             | None => json 500 (ErrorJson "Internal server error")
             end,
             [CallStat fullPath; CallReaddir fullPath]
               ++ map (λ name, CallStat (NodePath.join fullPath name)) names)
        end
    end.
Proof.
  intros fullPath. unfold listFiles, listFilesBody.
  fold (resolvedPath dirname req). fold fullPath.
  destruct (Js.startsWith fullPath dirname); cbn [negb]; [|done].
  unfold mbind, Fs_bind, fs_stat at 1.
  destruct (stat fs fullPath) as [stats|]; [|done].
  destruct (isDirectory stats); cbn [negb]; [|done].
  unfold fs_readdir.
  destruct (readdir fs fullPath) as [names|]; [|done].
  rewrite promise_all_describe.
  destruct (mapM _ names); [|done].
  unfold mret, Fs_ret. by rewrite app_nil_r.
Qed.

(** When the guard fails the handler answers 403 and touches nothing. *)
Lemma listFiles_guard dirname req fs :
  Js.startsWith (resolvedPath dirname req) dirname = false →
  listFiles dirname req fs = (json 403 (ErrorJson "Access denied"), []).
Proof. intros H. rewrite listFiles_unfold. cbv zeta. by rewrite H. Qed.

(** C1, as stated, fails: the resolved path is a directory inside the
    project directory, yet the answer is not a listing, because the stat
    of one child rejects and the handler answers 500. *)
Lemma listFiles_dangling_child :
  let req := {| params0 := Some "docs" |} in
  inside "/srv/app" (resolvedPath "/srv/app" req) ∧
  (∃ stats, stat dangling_fs (resolvedPath "/srv/app" req) = Some stats
            ∧ isDirectory stats = true) ∧
  fst (listFiles "/srv/app" req dangling_fs)
    = json 500 (ErrorJson "Internal server error") ∧
  ¬ (∃ items, fst (listFiles "/srv/app" req dangling_fs)
              = json 200 (ItemsJson items)).
Proof.
  split; [right; reflexivity|]. split; [by eexists|]. split; [reflexivity|].
  intros [items H]. vm_compute in H. discriminate H.
Qed.

(** C1, amended. For a request whose resolved path is a directory that
    passes the handler's prefix test, as every path inside the project
    directory does ([inside_startsWith]), and for which [readdir] and the
    stat of every child resolve, the handler answers with a JSON array
    holding exactly one entry per immediate child, in order: the entry
    carries the child's name, its type is [folder] exactly when the child
    is a directory and [file] otherwise, and its modification time and
    size are those of the child's stat. *)
Theorem listFiles_lists_children dirname req fs stats names :
  let fullPath := resolvedPath dirname req in
  Js.startsWith fullPath dirname = true →
  stat fs fullPath = Some stats → isDirectory stats = true →
  readdir fs fullPath = Some names →
  (∀ child, child ∈ names → is_Some (stat fs (NodePath.join fullPath child))) →
  ∃ items,
    fst (listFiles dirname req fs) = json 200 (ItemsJson items) ∧
    Forall2 (λ child item, ∃ st,
        stat fs (NodePath.join fullPath child) = Some st ∧
        name item = child ∧
        (type item = folder ↔ isDirectory st = true) ∧
        (type item = file ↔ isDirectory st = false) ∧
        modified item = mtime st ∧
        itemSize item = size st) names items.
Proof.
  intros fullPath Hin Hstat Hdir Hread Hchildren.
  rewrite listFiles_unfold. cbv zeta. fold fullPath.
  rewrite Hin, Hstat, Hdir, Hread. cbn [negb fst].
  destruct (mapM_is_Some_2
    (λ child, itemOf child <$> stat fs (NodePath.join fullPath child)) names)
    as [items Hitems].
  { apply Forall_forall. intros child Hc.
    destruct (Hchildren child Hc) as [st Hst].
    unfold compose. rewrite Hst. by eexists. }
  rewrite Hitems. exists items. split; [done|].
  apply mapM_Some_1 in Hitems.
  eapply Forall2_impl; [exact Hitems|].
  intros child item Hitem. cbv beta in Hitem.
  destruct (stat fs (NodePath.join fullPath child)) as [st|] eqn:Hst;
    [|discriminate Hitem].
  injection Hitem as <-. exists st. unfold itemOf. cbn.
  split; [done|]. split; [done|].
  by destruct (isDirectory st).
Qed.

Lemma listFiles_lists_children_witness :
  ∃ items,
    fst (listFiles "/srv/app" {| params0 := Some "" |} sample_fs)
    = json 200 (ItemsJson items) ∧
    Forall2 (λ child item, ∃ st,
        stat sample_fs (NodePath.join "/srv/app" child) = Some st ∧
        name item = child ∧
        (type item = folder ↔ isDirectory st = true) ∧
        (type item = file ↔ isDirectory st = false) ∧
        modified item = mtime st ∧
        itemSize item = size st) ["server.js"; "public"] items.
Proof.
  refine (listFiles_lists_children "/srv/app" {| params0 := Some "" |}
            sample_fs _ ["server.js"; "public"] _ _ _ _ _).
  - reflexivity.
  - reflexivity.
  - reflexivity.
  - reflexivity.
  - intros child Hc. apply elem_of_cons in Hc as [->|Hc]; [by eexists|].
    apply elem_of_cons in Hc as [->|Hc]; [by eexists|].
    by apply elem_of_nil in Hc.
Defined.

(** C2. For every request: if the handler's stat of the resolved path
    resolves and the path is not a directory, the answer is 400 with
    [{error: 'Not a directory'}]; and if any filesystem call the handler
    issues (stat or readdir) rejects, the answer is 500 with
    [{error: 'Internal server error'}]. The handler always answers. *)
Theorem listFiles_error_answers dirname req fs :
  let fullPath := resolvedPath dirname req in
  let answer := listFiles dirname req fs in
  (∀ stats,
      CallStat fullPath ∈ snd answer →
      stat fs fullPath = Some stats → isDirectory stats = false →
      fst answer = json 400 (ErrorJson "Not a directory")) ∧
  (∀ call,
      call ∈ snd answer → rejects fs call →
      fst answer = json 500 (ErrorJson "Internal server error")).
Proof.
  intros fullPath answer. subst answer.
  rewrite listFiles_unfold. cbv zeta. fold fullPath.
  destruct (Js.startsWith fullPath dirname); cbn [negb].
  2:{ split; [intros ? H|intros ? H]; by apply elem_of_nil in H. }
  destruct (stat fs fullPath) as [stats|] eqn:Hstat.
  2:{ split; [intros ? _ ?; discriminate | done]. }
  destruct (isDirectory stats) eqn:Hdir; cbn [negb].
  2:{ split; [done|]. intros call Hc Hrej. cbn in Hc.
      apply list_elem_of_singleton in Hc as ->. cbn in Hrej. congruence. }
  split; [intros ? _ [= <-] ?; congruence|].
  destruct (readdir fs fullPath) as [names|] eqn:Hread; [|done].
  intros call Hc Hrej. cbn [fst snd] in *.
  apply elem_of_app in Hc as [Hc|Hc].
  - apply elem_of_cons in Hc as [->|Hc]; [cbn in Hrej; congruence|].
    apply list_elem_of_singleton in Hc as ->. cbn in Hrej. congruence.
  - apply list_elem_of_fmap in Hc as (child & -> & Hchild). cbn in Hrej.
    rewrite (mapM_None_2 _ names); [done|].
    apply Exists_exists. exists child. split; [done|]. by rewrite Hrej.
Qed.

Lemma listFiles_error_answers_witness :
  fst (listFiles "/srv/app" {| params0 := Some "README.md" |} faulty_fs)
    = json 400 (ErrorJson "Not a directory") ∧
  fst (listFiles "/srv/app" {| params0 := Some "private" |} faulty_fs)
    = json 500 (ErrorJson "Internal server error").
Proof.
  split.
  - refine (proj1 (listFiles_error_answers "/srv/app"
             {| params0 := Some "README.md" |} faulty_fs) _ _ _ _).
    + vm_compute. apply list_elem_of_here.
    + reflexivity.
    + reflexivity.
  - refine (proj2 (listFiles_error_answers "/srv/app"
             {| params0 := Some "private" |} faulty_fs)
             (CallReaddir "/srv/app/private") _ _).
    + vm_compute. apply list_elem_of_further, list_elem_of_here.
    + reflexivity.
Defined.

(** C10, at the failing input: the project directory is [/srv/app] and
    the request names the sibling [/srv/app-secrets]. The resolved path is
    not inside the project directory, yet the handler stats and reads it
    and answers with its listing instead of 403. *)
Theorem listFiles_sibling_prefix :
  let req := {| params0 := Some "../app-secrets" |} in
  resolvedPath "/srv/app" req = "/srv/app-secrets" ∧
  ¬ inside "/srv/app" (resolvedPath "/srv/app" req) ∧
  listFiles "/srv/app" req sample_fs =
    (json 200 (ItemsJson [itemOf "key.pem"
       {| isDirectory := false; mtime := "2024-01-01T00:00:00.000Z"; size := 1704 |}]),
     [CallStat "/srv/app-secrets"; CallReaddir "/srv/app-secrets";
      CallStat "/srv/app-secrets/key.pem"]).
Proof.
  split; [reflexivity|]. split; [|reflexivity].
  intros [H|H]; vm_compute in H; discriminate H.
Qed.

End ServerFacts.

(** ** The DOM model *)

Module DomFacts.
Import Dom.

(** Induction on elements, with the property available for the child
    elements. *)
Lemma Element_induction (P : Element → Prop) :
  (∀ a ns,
      Forall (λ n, match n with inr c => P c | inl _ => True end) ns →
      P (El a ns)) →
  ∀ e, P e.
Proof.
  intros step. fix IH 1. intros [a ns]. apply step.
  induction ns as [|[t|c] ns IHns]; constructor; auto.
Qed.

Lemma walk_unfold a ns : walk (El a ns) = walkNodes 0 ns.
Proof. reflexivity. Qed.

Lemma get_app e r1 r2 : get e (r1 ++ r2) = get e r1 ≫= λ d, get d r2.
Proof.
  revert e. induction r1 as [|i r1 IH]; intros e; [done|].
  cbn [app get]. destruct (childNodes e !! i) as [[t|c]|]; [done| |done].
  apply IH.
Qed.

(** A reference listed by [walk] points to the element listed with it. *)
Lemma walkNodes_get ns :
  Forall (λ n, match n with
               | inr c => ∀ r d, (r, d) ∈ walk c → get c r = Some d
               | inl _ => True
               end) ns →
  ∀ i r d, (r, d) ∈ walkNodes i ns →
    ∃ j r' c, r = (i + j) :: r' ∧ ns !! j = Some (inr c) ∧ get c r' = Some d.
Proof.
  induction 1 as [|[t|c] ns Hc _ IH]; intros i r d Hin; cbn in Hin.
  - by apply elem_of_nil in Hin.
  - destruct (IH _ _ _ Hin) as (j & r' & c & -> & Hj & Hget).
    exists (S j), r', c. split; [f_equal; lia|done].
  - apply elem_of_cons in Hin as [[= -> ->]|Hin].
    { exists 0, [], c. split; [f_equal; lia|done]. }
    apply elem_of_app in Hin as [Hin|Hin].
    + apply list_elem_of_fmap in Hin as ([r' d'] & [= -> ->] & Hin).
      exists 0, r', c. split; [f_equal; lia|]. split; [done|]. by apply Hc.
    + destruct (IH _ _ _ Hin) as (j & r' & c' & -> & Hj & Hget).
      exists (S j), r', c'. split; [f_equal; lia|done].
Qed.

Lemma walk_get e r d : (r, d) ∈ walk e → get e r = Some d.
Proof.
  revert r d. induction e as [a ns IH] using Element_induction.
  intros r d Hin. rewrite walk_unfold in Hin.
  destruct (walkNodes_get ns IH 0 r d Hin) as (j & r' & c & -> & Hj & Hget).
  cbn. by rewrite Hj.
Qed.

Lemma querySelector_get sel e r d :
  querySelector sel e = Some (r, d) → get e r = Some d ∧ matches sel d = true.
Proof.
  unfold querySelector, querySelectorAll. intros H.
  apply head_Some_elem_of in H.
  apply list_elem_of_In, filter_In in H as [Hin Hm].
  split; [|done]. by apply walk_get, list_elem_of_In.
Qed.

(** Reading back what was just modified. *)
Lemma get_modifyAt r f e : get (modifyAt r f e) r = f <$> get e r.
Proof.
  revert e. induction r as [|i r IH]; intros e; [done|].
  cbn [get modifyAt childNodes]. rewrite list_lookup_alter_eq.
  destruct (childNodes e !! i) as [[t|c]|]; cbn; [done| |done].
  apply IH.
Qed.

(** A modification that leaves the child nodes of the element alone
    leaves every reference of the view valid. *)
Lemma get_modifyAt_shape r f e r' :
  (∀ d, childNodes (f d) = childNodes d) →
  is_Some (get (modifyAt r f e) r') ↔ is_Some (get e r').
Proof.
  intros Hf. revert e r'. induction r as [|i r IH]; intros e r'.
  - cbn [modifyAt]. destruct r' as [|j r']; [done|].
    cbn [get]. by rewrite Hf.
  - destruct r' as [|j r']; [done|].
    cbn [get modifyAt childNodes].
    destruct (decide (i = j)) as [->|Hne].
    + rewrite list_lookup_alter_eq.
      destruct (childNodes e !! j) as [[t|c]|]; cbn; [done| |done].
      apply IH.
    + by rewrite list_lookup_alter_ne.
Qed.

Lemma classList_toggle_childNodes c force d :
  childNodes (classList_toggle c force d) = childNodes d.
Proof. by destruct force, d. Qed.

(** Every descendant is listed by [walk], under its reference. *)
Lemma walkNodes_elem ns k j c r d :
  ns !! j = Some (inr c) →
  (r = [] ∧ d = c) ∨ (r, d) ∈ walk c →
  ((k + j) :: r, d) ∈ walkNodes k ns.
Proof.
  revert k j. induction ns as [|[t|c'] ns IH]; intros k j Hj Hd; [done| |].
  - destruct j as [|j]; [done|]. cbn in Hj. cbn [walkNodes].
    replace (k + S j) with (S k + j) by lia. by apply IH.
  - cbn [walkNodes]. destruct j as [|j].
    + injection Hj as ->. replace (k + 0) with k by lia.
      destruct Hd as [[-> ->]|Hd]; [apply list_elem_of_here|].
      apply list_elem_of_further, elem_of_app. left.
      apply list_elem_of_fmap. by exists (r, d).
    + cbn in Hj. apply list_elem_of_further, elem_of_app. right.
      replace (k + S j) with (S k + j) by lia. by apply IH.
Qed.

Lemma get_walk r e d : r ≠ [] → get e r = Some d → (r, d) ∈ walk e.
Proof.
  revert e. induction r as [|i r IH]; intros [a ns] Hne Hget; [done|].
  cbn [get childNodes] in Hget.
  destruct (ns !! i) as [[t|c]|] eqn:Hi; [done| |done].
  rewrite walk_unfold. change i with (0 + i).
  apply (walkNodes_elem ns 0 i c); [done|].
  destruct r as [|j r]; [left; by injection Hget as ->|right].
  by apply IH.
Qed.

End DomFacts.

(** ** Selector texts *)

Module CssFacts.
Import Css.

Lemma ordinary_cases c :
  ordinary c = true →
  Ascii.eqb c quote = false ∧ Ascii.eqb c backslash = false ∧
  Ascii.eqb c lineFeed = false ∧ Ascii.eqb c formFeed = false ∧
  Ascii.eqb c carriageReturn = false ∧ Ascii.eqb c null = false.
Proof.
  unfold ordinary. intros H%negb_true_iff.
  repeat (apply orb_false_iff in H as [H ?]). done.
Qed.

(** Preprocessing leaves a plain string as it is. *)
Lemma preprocess_plain s t :
  plain s = true → preprocess (s +:+ t) = s +:+ preprocess t.
Proof.
  induction s as [|c s IH]; [done|]. cbn [plain].
  intros [Hc Hs]%andb_true_iff.
  apply ordinary_cases in Hc as (_ & _ & _ & Hff & Hcr & Hnull).
  rewrite !append_cons. cbn [preprocess]. by rewrite Hcr, Hff, Hnull, IH.
Qed.

(** A plain string is the value of the string token it is written in. *)
Lemma consumeString_plain s rest :
  plain s = true →
  consumeString Plain (s +:+ String quote rest) = Closed s rest.
Proof.
  induction s as [|c s IH]; [done|]. cbn [plain].
  intros [Hc Hs]%andb_true_iff.
  apply ordinary_cases in Hc as (Hq & Hb & Hlf & _).
  rewrite append_cons. cbn [consumeString]. by rewrite Hq, Hlf, Hb, IH.
Qed.

Lemma stripPrefix_app prefix s : stripPrefix prefix (prefix +:+ s) = Some s.
Proof.
  induction prefix as [|c prefix IH]; [by destruct s|].
  rewrite append_cons. cbn [stripPrefix]. by rewrite Ascii.eqb_refl.
Qed.

(** The selector text built from a plain path is read as the attribute
    selector for that path. *)
Lemma attributeSelector_plain path :
  plain path = true →
  attributeSelector
    ("[data-path=" +:+ String quote (path +:+ String quote "]")) = Some path.
Proof.
  intros Hplain. unfold attributeSelector.
  rewrite (preprocess_plain "[data-path=") by done.
  change (preprocess (String quote (path +:+ String quote "]")))
    with (String quote (preprocess (path +:+ String quote "]"))).
  rewrite preprocess_plain by done.
  change (preprocess (String quote "]")) with (String quote "]").
  change ("[data-path=" +:+ String quote (path +:+ String quote "]"))
    with (("[data-path=" +:+ String quote "") +:+ (path +:+ String quote "]")).
  rewrite stripPrefix_app, consumeString_plain by done.
  by rewrite bool_decide_eq_true_2.
Qed.

End CssFacts.

(** ** The explorer *)

Module ExplorerFacts.
Import Dom Explorer DomFacts ExplorerSamples.

(** *** Collapsing *)

(** The members the loop of [removeExpandedFolder] deletes. *)
Lemma removeExpandedFolder_fold (path : string) (folders visited : gset string) q :
  q ∈ set_fold (λ expandedPath (acc : gset string),
         if (expandedPath === path) || Js.startsWith expandedPath (path +:+ "/")
         then acc ∖ {[expandedPath]} else acc) folders visited
  ↔ q ∈ folders ∧
    ¬ (q ∈ visited ∧ (q = path ∨ Js.startsWith q (path +:+ "/") = true)).
Proof.
  revert q. apply (set_fold_ind_L (λ (acc visited : gset string), ∀ q,
    q ∈ acc ↔ q ∈ folders ∧
      ¬ (q ∈ visited ∧ (q = path ∨ Js.startsWith q (path +:+ "/") = true)))).
  - intros q. split; [|by intros [? _]].
    intros Hq. split; [done|]. intros [Hin _]. by apply elem_of_empty in Hin.
  - intros x X acc Hx IH q.
    destruct ((x === path) || Js.startsWith x (path +:+ "/")) eqn:Hdoomed.
    + apply orb_true_iff in Hdoomed. rewrite seq_true in Hdoomed.
      rewrite elem_of_difference, IH, elem_of_singleton.
      split.
      * intros [[Hq Hkeep] Hne]. split; [done|].
        intros [[->%elem_of_singleton|Hin]%elem_of_union Hd]; [done|].
        apply Hkeep. done.
      * intros [Hq Hkeep]. split; [split; [done|]|].
        -- intros [Hin Hd]. apply Hkeep.
           split; [apply elem_of_union; by right|done].
        -- intros ->. apply Hkeep.
           split; [apply elem_of_union; left; by apply elem_of_singleton|done].
    + apply orb_false_iff in Hdoomed as [Hne Hpre]. rewrite seq_false in Hne.
      rewrite IH. split.
      * intros [Hq Hkeep]. split; [done|].
        intros [[->%elem_of_singleton|Hin]%elem_of_union Hd].
        -- destruct Hd as [Hd|Hd]; [done|congruence].
        -- apply Hkeep. done.
      * intros [Hq Hkeep]. split; [done|].
        intros [Hin Hd]. apply Hkeep.
        split; [apply elem_of_union; by right|done].
Qed.

Lemma removeExpandedFolder_elem st p q :
  q ∈ expandedFolders (removeExpandedFolder st p)
  ↔ q ∈ expandedFolders st ∧ q ≠ p ∧ Js.startsWith q (p +:+ "/") = false.
Proof.
  unfold removeExpandedFolder. cbn [expandedFolders setExpandedFolders].
  rewrite removeExpandedFolder_fold. split.
  - intros [Hq Hkeep]. split; [done|]. split.
    + intros ->. apply Hkeep. by split; [|left].
    + destruct (Js.startsWith q (p +:+ "/")) eqn:E; [|done].
      exfalso. apply Hkeep. by split; [|right].
  - intros (Hq & Hne & Hpre). split; [done|].
    intros [_ [->|Hd]]; congruence.
Qed.

(** C4. After [removeExpandedFolder(state, p)] the expansion set holds
    exactly the previous members [q] with [q ≠ p] that do not start with
    [p] followed by ['/']; a member that shares [p] as a prefix without
    the separator, such as ['/parent2'] for ['/parent'], stays; the
    current path and the views are untouched. *)
Theorem removeExpandedFolder_subtree st p :
  (∀ q, q ∈ expandedFolders (removeExpandedFolder st p)
        ↔ q ∈ expandedFolders st ∧ q ≠ p ∧ Js.startsWith q (p +:+ "/") = false) ∧
  (p = "/parent" → "/parent2" ∈ expandedFolders st →
     "/parent2" ∈ expandedFolders (removeExpandedFolder st p)) ∧
  currentPath (removeExpandedFolder st p) = currentPath st ∧
  treeView (removeExpandedFolder st p) = treeView st ∧
  listView (removeExpandedFolder st p) = listView st.
Proof.
  split; [apply removeExpandedFolder_elem|]. split; [|done].
  intros -> Hin. apply removeExpandedFolder_elem.
  split; [done|]. split; [discriminate|reflexivity].
Qed.

(** *** The list view *)

Lemma append_empty_r s : s +:+ "" = s.
Proof. induction s as [|c s IH]; [done|]. by rewrite append_cons, IH. Qed.

Lemma querySelector_first_child sel a c rest :
  matches sel c = true → querySelector sel (El a (inr c :: rest)) = Some ([0], c).
Proof.
  intros Hm. unfold querySelector, querySelectorAll.
  rewrite walk_unfold. cbn [walkNodes List.filter snd]. by rewrite Hm.
Qed.

Lemma createListRow_childNodes icon text modified size onClick :
  childNodes (createListRow icon text modified size onClick)
  = [inr (append [inr icon; inl text] (newElement "td"));
     inr (createElement "td"
       {| className := None; textContent_ := Some (orDashes modified); style_ := None |});
     inr (createElement "td"
       {| className := None; textContent_ := Some (orDashes size); style_ := None |})].
Proof. by destruct onClick. Qed.

Lemma createListRow_label icon text modified size onClick :
  textContent icon = "" →
  rowLabel (createListRow icon text modified size onClick) = Some text.
Proof.
  intros Htext.
  pose proof (createListRow_childNodes icon text modified size onClick) as Hkids.
  destruct (createListRow icon text modified size onClick) as [a ns].
  cbn in Hkids. subst ns. unfold rowLabel.
  rewrite querySelector_first_child by done.
  cbn [fmap option_fmap option_map snd].
  change (textContent (append [inr icon; inl text] (newElement "td")))
    with (textContent icon +:+ text +:+ "").
  by rewrite Htext, append_empty_r.
Qed.

Lemma createListRow_onClick icon text modified size onClick :
  Dom.onClick (attrs (createListRow icon text modified size onClick)) = onClick.
Proof. by destruct onClick. Qed.

Lemma createIcon_textContent type isExpanded :
  textContent (createIcon type isExpanded) = "".
Proof. by destruct type, isExpanded. Qed.

(** C6. [updateListView] rebuilds the list view: its child nodes are one
    row per item of the data array, in order, preceded by the parent row
    exactly when the current path is not ['/']. The parent row is labelled
    ['...'] and is the only row that navigates to the parent; the row of
    an item is labelled with the item's name. Nothing else of the state
    changes. *)
Theorem updateListView_rows host st data :
  let st' := updateListView host st data in
  childNodes (listView st')
    = map inr ((if bool_decide (currentPath st = "/") then [] else [parentRow])
               ++ map (itemRow host st) data) ∧
  rowLabel parentRow = Some "..." ∧
  Dom.onClick (attrs parentRow) = Some SelectParent ∧
  (∀ item, rowLabel (itemRow host st item) = Some (name item) ∧
           Dom.onClick (attrs (itemRow host st item)) ≠ Some SelectParent) ∧
  expandedFolders st' = expandedFolders st ∧
  currentPath st' = currentPath st ∧
  treeView st' = treeView st.
Proof.
  cbv zeta. split; [|split; [|split; [|split; [|done]]]].
  - unfold updateListView. cbn [listView setListView].
    unfold Js.seq. by destruct (bool_decide (currentPath st = "/")).
  - by apply createListRow_label.
  - apply createListRow_onClick.
  - intros item. unfold itemRow. split.
    + apply createListRow_label, createIcon_textContent.
    + rewrite createListRow_onClick. by destruct (type item).
Qed.

(** *** Expanding and collapsing *)

(** [toggleFolderExpansion] on a path other than the root, in direct
    style. *)
Lemma toggleFolderExpansion_unfold host path force w :
  path ≠ "/" →
  toggleFolderExpansion host path force w =
    let st := state w in
    let expand := shouldExpand st path force in
    let st1 := toggled st path expand in
    match treeItemOf host (treeView st) path with
    | Threw => (Rejected, {| state := st1; requests := requests w |})
    | Returned None =>
        (Fulfilled (),
         {| state := updateListViewExpansion st1; requests := requests w |})
    | Returned (Some (itemRef, treeItem)) =>
        let tree2 := toggledTree (treeView st) itemRef treeItem expand in
        match querySelector (ByClasses ["tree-children"]) treeItem with
        | Some (containerRef, container) =>
            if expand && bool_decide (length (children container) = 0) then
              let level := length (filter Js.Boolean (Js.split "/" path)) in
              match respond host (length (requests w)) path with
              | FetchResolved data =>
                  (Fulfilled (),
                   {| state := updateListViewExpansion
                        (setTreeView
                           (modifyAt (itemRef ++ containerRef)
                              (λ parentElement,
                                 updateTreeView data parentElement level path)
                              tree2) st1);
                      requests := requests w ++ [path] |})
              | FetchResolvedOther =>
                  (Rejected,
                   {| state := setTreeView
                        (if bool_decide (level = 0) then
                           modifyAt (itemRef ++ containerRef)
                             (λ parentElement,
                                updateTreeView [] parentElement level path)
                             tree2
                         else tree2) st1;
                      requests := requests w ++ [path] |})
              | FetchRejected =>
                  (Rejected,
                   {| state := setTreeView tree2 st1;
                      requests := requests w ++ [path] |})
              end
            else if negb expand then
              (Fulfilled (),
               {| state := updateListViewExpansion
                    (setTreeView
                       (modifyAt (itemRef ++ containerRef) clearInnerHTML tree2) st1);
                  requests := requests w |})
            else
              (Fulfilled (),
               {| state := updateListViewExpansion (setTreeView tree2 st1);
                  requests := requests w |})
        | None =>
            (Fulfilled (),
             {| state := updateListViewExpansion (setTreeView tree2 st1);
                requests := requests w |})
        end
    end.
Proof.
  intros Hroot%seq_false. unfold toggleFolderExpansion. rewrite Hroot.
  cbv zeta.
  unfold callUpdateTreeView, modifyTree, queried, throw.
  unfold mbind, Async_bind, getState, modifyState, mret, Async_ret,
    fetchFolderContents, toggled, toggledTree.
  cbn [state requests fst snd].
  assert (Htree : ∀ b : bool, treeView (if b then setExpandedFolders
             ({[path]} ∪ expandedFolders (state w)) (state w)
           else removeExpandedFolder (state w) path) = treeView (state w))
    by (by intros []).
  rewrite Htree.
  destruct (treeItemOf host (treeView (state w)) path)
    as [|[[itemRef treeItem]|]]; [done| |done].
  cbn [state requests].
  destruct (querySelector (ByClasses ["folder-icon"]) treeItem) as [[iconRef ?]|];
    cbn [state requests treeView setTreeView];
    (destruct (querySelector (ByClasses ["tree-children"]) treeItem)
       as [[containerRef container]|]; [|by rewrite ?Htree]);
    (destruct (shouldExpand (state w) path force
               && bool_decide (length (children container) = 0));
     [cbn [state requests];
      destruct (respond host (length (requests w)) path);
      cbn [state requests treeView setTreeView];
      try (destruct (bool_decide
             (length (filter Js.Boolean (Js.split "/" path)) = 0));
           cbn [state requests treeView setTreeView]);
      by rewrite ?Htree|]);
    (destruct (negb (shouldExpand (state w) path force));
     cbn [state requests treeView setTreeView]; by rewrite ?Htree).
Qed.

Lemma toggled_currentPath st path expand :
  currentPath (toggled st path expand) = currentPath st.
Proof. by destruct expand. Qed.

(** What [toggleFolderExpansion] does to the expansion set and to the
    current path. *)
Lemma toggleFolderExpansion_folders host path force w :
  path ≠ "/" →
  let w' := snd (toggleFolderExpansion host path force w) in
  expandedFolders (state w')
    = expandedFolders (toggled (state w) path (shouldExpand (state w) path force)) ∧
  currentPath (state w') = currentPath (state w).
Proof.
  intros Hroot. cbv zeta. rewrite toggleFolderExpansion_unfold by done.
  cbv zeta.
  repeat case_match; cbn [snd state expandedFolders currentPath
    updateListViewExpansion setListView setTreeView];
    by rewrite toggled_currentPath.
Qed.

(** The two class toggles keep every reference of the tree valid. *)
Lemma toggledTree_get view itemRef treeItem expand ref :
  is_Some (get (toggledTree view itemRef treeItem expand) ref)
  ↔ is_Some (get view ref).
Proof.
  unfold toggledTree.
  destruct (querySelector (ByClasses ["folder-icon"]) treeItem) as [[iconRef ?]|].
  - rewrite !get_modifyAt_shape by apply classList_toggle_childNodes. done.
  - rewrite get_modifyAt_shape by apply classList_toggle_childNodes. done.
Qed.

(** Whatever the selector text, the element [querySelector] returns is
    the one at the reference returned with it. *)
Lemma treeItemOf_get host view path ref item :
  treeItemOf host view path = Returned (Some (ref, item)) →
  get view ref = Some item.
Proof.
  unfold treeItemOf, querySelectorText.
  destruct (Css.attributeSelector _) as [value|].
  - intros [= H]. by apply querySelector_get in H as [? _].
  - destruct (querySelectorOther host _ view) as [[i|]|]; [|done..].
    intros [= H]. by apply walk_get, (list_elem_of_lookup_2 _ i).
Qed.

(** C5, at the failing input: the root holds a folder named [a\b]. After
    [init] the tree holds the item of the folder, with the data path
    [/a\b] and an empty child container, and the folder is not expanded,
    so that [toggleFolderExpansion] expands. It sends no request: in
    the selector text the backslash starts an escape, [querySelector]
    looks for another data path and returns [null]. The call completes
    with the folder recorded as expanded and the tree as it was, its
    children not loaded; a click on the folder in the tree sends the one
    request of the list view. *)
Theorem toggleFolderExpansion_unescaped_path :
  let w := unescaped in
  let path := buildPath "a\b" "/" in
  let w' := snd (toggleFolderExpansion unescaped_host path None w) in
  (∃ item container,
      get (treeView (state w)) [0; 1; 0] = Some item ∧
      dataPath (attrs item) = Some path ∧
      querySelector (ByClasses ["tree-children"]) item = Some ([1], container) ∧
      children container = []) ∧
  shouldExpand (state w) path None = true ∧
  treeItemOf unescaped_host (treeView (state w)) path = Returned None ∧
  fst (toggleFolderExpansion unescaped_host path None w) = Fulfilled () ∧
  requests w' = requests w ∧
  treeView (state w') = treeView (state w) ∧
  path ∈ expandedFolders (state w') ∧
  requests (snd (click unescaped_host (SelectFromTree path) w))
  = requests w ++ [path].
Proof.
  cbv zeta. split; [do 2 eexists; repeat split; reflexivity|].
  split; [reflexivity|]. split; [reflexivity|]. split; [reflexivity|].
  split; [reflexivity|]. split; [reflexivity|].
  split; [vm_compute; reflexivity|reflexivity].
Qed.

(** *** Relations every operation maintains *)

Section Preservation.

(** A preorder on states that the views do not matter for. *)
Context (Rs : relation ExplorerState) `{!PreOrder Rs}.
Hypothesis Rs_tree : ∀ st view, Rs st (setTreeView view st).
Hypothesis Rs_list : ∀ st view, Rs st (setListView view st).

Local Abbreviation preserves := (Explorer.preserves Rs).

Lemma preserves_ret {A} (a : A) : preserves (mret a).
Proof. intros w. reflexivity. Qed.

Lemma preserves_bind {A B} (m : Async A) (k : A → Async B) :
  preserves m → (∀ a, preserves (k a)) → preserves (m ≫= k).
Proof.
  intros Hm Hk w. unfold mbind, Async_bind.
  specialize (Hm w). destruct (m w) as [[a|] w1]; [|done].
  cbn [snd] in Hm. etrans; [exact Hm|]. apply Hk.
Qed.

Lemma preserves_getState : preserves getState.
Proof. intros w. reflexivity. Qed.

Lemma preserves_modifyState f :
  (∀ st, Rs st (f st)) → preserves (modifyState f).
Proof. intros Hf w. apply Hf. Qed.

Lemma preserves_throw {A} : preserves (@throw A).
Proof. intros w. reflexivity. Qed.

Lemma preserves_queried q : preserves (queried q).
Proof. destruct q; [apply preserves_throw|apply preserves_ret]. Qed.

Lemma preserves_fetch host path : preserves (fetchFolderContents host path).
Proof.
  intros w. unfold fetchFolderContents.
  by destruct (respond host (length (requests w)) path).
Qed.

Lemma preserves_modifyTree ref f : preserves (modifyTree ref f).
Proof. apply preserves_modifyState. intros st. apply Rs_tree. Qed.

Lemma Rs_updateListView host st data : Rs st (updateListView host st data).
Proof. apply Rs_list. Qed.

Lemma Rs_updateListViewExpansion st : Rs st (updateListViewExpansion st).
Proof. apply Rs_list. Qed.

Lemma preserves_callUpdateListView host data :
  preserves (callUpdateListView host data).
Proof.
  destruct data; [|apply preserves_throw].
  apply preserves_modifyState. intros st. apply Rs_updateListView.
Qed.

Lemma preserves_callUpdateTreeView data ref level parentPath :
  preserves (callUpdateTreeView data ref level parentPath).
Proof.
  destruct data; [apply preserves_modifyTree|].
  apply preserves_bind; [|intros _; apply preserves_throw].
  case_bool_decide; [apply preserves_modifyTree|apply preserves_ret].
Qed.

Lemma preserves_updateSelection host path :
  preserves (updateSelection host path).
Proof.
  unfold updateSelection.
  apply preserves_bind; [apply preserves_modifyState; intros st; apply Rs_tree|].
  intros _.
  apply preserves_bind; [apply preserves_modifyState; intros st; apply Rs_list|].
  intros _. apply preserves_bind; [apply preserves_getState|]. intros st.
  apply preserves_bind; [apply preserves_queried|]. intros found.
  apply preserves_bind.
  { destruct found as [[itemRef ?]|];
      [apply preserves_modifyTree|apply preserves_ret]. }
  intros _. apply preserves_modifyState. intros ?. apply Rs_list.
Qed.

Lemma preserves_toggleFolderExpansion host path force :
  (path ≠ "/" → ∀ st, Rs st (toggled st path (shouldExpand st path force))) →
  preserves (toggleFolderExpansion host path force).
Proof.
  intros Htoggled w.
  destruct (decide (path = "/")) as [->|Hroot]; [reflexivity|].
  specialize (Htoggled Hroot (state w)).
  rewrite toggleFolderExpansion_unfold by done. cbv zeta.
  repeat case_match; cbn [snd state];
    (etrans; [exact Htoggled|]);
    repeat first [ reflexivity
                 | apply Rs_tree
                 | (etrans; [|apply Rs_updateListViewExpansion]) ].
Qed.

Lemma preserves_expandParts host pathParts currentPath :
  (∀ st path, Rs st (toggled st path true)) →
  preserves (expandParts host pathParts currentPath).
Proof.
  intros Hadd. revert currentPath.
  induction pathParts as [|part rest IH]; intros currentPath; cbn [expandParts].
  - apply preserves_ret.
  - apply preserves_bind; [|intros _; apply IH].
    apply preserves_toggleFolderExpansion. intros _ st. apply Hadd.
Qed.

Lemma preserves_handleFolderSelect host path source :
  (∀ st, Rs st (setCurrentPath path st)) →
  (∀ st path, Rs st (toggled st path true)) →
  (path ≠ "/" → ∀ st, Rs st (toggled st path (shouldExpand st path None))) →
  preserves (handleFolderSelect host path source).
Proof.
  intros Hcur Hadd Htoggle. unfold handleFolderSelect.
  apply preserves_bind; [apply preserves_getState|]. intros st.
  apply preserves_bind; [by apply preserves_modifyState|]. intros _.
  apply preserves_bind.
  { case_match; [|apply preserves_ret].
    apply preserves_bind; [apply preserves_fetch|]. intros data.
    apply preserves_callUpdateListView. }
  intros _. apply preserves_bind.
  { case_match; [|apply preserves_ret]. by apply preserves_expandParts. }
  intros _. apply preserves_bind.
  { case_match; [|apply preserves_ret].
    by apply preserves_toggleFolderExpansion. }
  intros _. apply preserves_updateSelection.
Qed.

Lemma preserves_init host : preserves (init host).
Proof.
  unfold init.
  apply preserves_bind; [apply preserves_fetch|]. intros data.
  apply preserves_bind; [apply preserves_callUpdateTreeView|].
  intros _. apply preserves_callUpdateListView.
Qed.

End Preservation.

(** *** The root stays expanded *)

Lemma keepsRoot_preorder : PreOrder keepsRoot.
Proof.
  split; [intros st Hin; exact Hin|].
  intros a b c Hab Hbc Ha. apply Hbc, Hab, Ha.
Qed.

#[local] Existing Instance keepsRoot_preorder.

Lemma keepsRoot_added st path : keepsRoot st (toggled st path true).
Proof.
  intros Hin. cbn [toggled expandedFolders setExpandedFolders].
  apply elem_of_union. by right.
Qed.

Lemma keepsRoot_toggled st path expand :
  path ≠ "" → path ≠ "/" → keepsRoot st (toggled st path expand).
Proof.
  intros Hne Hroot. destruct expand; [apply keepsRoot_added|].
  intros Hin. cbn [toggled]. apply removeExpandedFolder_elem.
  split; [done|]. split; [done|].
  destruct path as [|c [|d rest]]; [done| |];
    rewrite !append_cons, ?append_nil; cbn; by rewrite andb_false_r.
Qed.

Lemma buildPath_nonempty name parentPath : buildPath name parentPath ≠ "".
Proof.
  unfold buildPath. destruct (parentPath === "/"); [done|].
  by destruct parentPath.
Qed.

(** Every reached world has the root among the expanded folders. *)
Lemma reachable_root host w : Reachable host w → "/" ∈ expandedFolders (state w).
Proof.
  induction 1 as [tv lv|w _ IH|w name parent source _ IH|w name parent force _ IH].
  - cbn. by apply elem_of_singleton.
  - revert IH. apply (preserves_init keepsRoot); intros st view Hin; exact Hin.
  - revert IH. apply (preserves_handleFolderSelect keepsRoot).
    + intros st view Hin; exact Hin.
    + intros st view Hin; exact Hin.
    + intros st Hin; exact Hin.
    + intros ??. apply keepsRoot_added.
    + intros Hroot st. by apply keepsRoot_toggled; [apply buildPath_nonempty|].
  - revert IH. apply (preserves_toggleFolderExpansion keepsRoot).
    + intros st view Hin; exact Hin.
    + intros st view Hin; exact Hin.
    + intros Hroot st. by apply keepsRoot_toggled; [apply buildPath_nonempty|].
Qed.

(** C9. The root is permanently expanded: ['/'] is in the expansion set
    of the initial state; [toggleFolderExpansion] on ['/'] changes
    nothing, neither the expansion set nor the views, and sends no
    request; and ['/'] is in the expansion set of every world reached
    through [init], [handleFolderSelect] and [toggleFolderExpansion] on
    paths produced by [buildPath]. *)
Theorem root_permanently_expanded host :
  (∀ treeView listView,
      "/" ∈ expandedFolders (createInitialState treeView listView)) ∧
  (∀ forceState w,
      toggleFolderExpansion host "/" forceState w = (Fulfilled (), w)) ∧
  (∀ w, Reachable host w → "/" ∈ expandedFolders (state w)).
Proof.
  split; [|split].
  - intros tv lv. cbn. by apply elem_of_singleton.
  - done.
  - apply reachable_root.
Qed.

(** *** Selecting from the list view *)

Lemma grows_preorder : PreOrder grows.
Proof.
  split; [by intros st|].
  intros a b c [Hab Hab'] [Hbc Hbc']. split; [by etrans|congruence].
Qed.

#[local] Existing Instance grows_preorder.

Lemma grows_added st path : grows st (toggled st path true).
Proof. split; [|done]. cbn. apply union_subseteq_r. Qed.

Lemma buildPath_not_root part currentPath :
  part ≠ "" → buildPath part currentPath ≠ "/".
Proof.
  intros Hpart. unfold buildPath. destruct (currentPath === "/").
  - destruct part; [done|]. discriminate.
  - destruct currentPath as [|c [|d rest]]; [|discriminate..].
    destruct part; [done|]. discriminate.
Qed.

(** When the loop of [expandTreeToPath] runs to its end, every path it
    built is expanded. *)
Lemma expandParts_adds host pathParts currentPath w :
  Forall Js.Boolean pathParts →
  fst (expandParts host pathParts currentPath w) = Fulfilled () →
  ∀ q, q ∈ visitedPaths pathParts currentPath →
       q ∈ expandedFolders (state (snd (expandParts host pathParts currentPath w))).
Proof.
  intros Hparts. revert currentPath w.
  induction Hparts as [|part rest Hpart _ IH]; intros cur w Hdone q Hq.
  { by apply elem_of_nil in Hq. }
  cbn [expandParts visitedPaths] in *. unfold mbind, Async_bind in *.
  pose proof (toggleFolderExpansion_folders host (buildPath part cur) (Some true) w
                (buildPath_not_root _ _ Hpart)) as [Hfolders _].
  destruct (toggleFolderExpansion host (buildPath part cur) (Some true) w)
    as [[[]|] w1]; [|discriminate Hdone].
  cbn [snd] in Hfolders.
  apply elem_of_cons in Hq as [->|Hq]; [|by apply IH].
  apply (preserves_expandParts grows); [by intros ??|by intros ??| |].
  - intros ??. apply grows_added.
  - rewrite Hfolders. cbn. apply elem_of_union. left. by apply elem_of_singleton.
Qed.

Lemma startsWith_empty s : Js.startsWith s "" = true.
Proof. by destruct s. Qed.

(** A string without ['/'] has no prefix that ends in ['/']. *)
Lemma slash_free_no_prefix s q :
  has_slash s = false → Js.startsWith s (q +:+ "/") = false.
Proof.
  revert s. induction q as [|c q IH]; intros [|d s] Hs; try done.
  - rewrite append_nil. cbn in *. apply orb_false_iff in Hs as [-> _]. done.
  - rewrite append_cons. cbn in *. apply orb_false_iff in Hs as [_ Hs].
    by rewrite IH, andb_false_r.
Qed.

(** A prefix ending in ['/'] cannot reach into a tail without ['/']. *)
Lemma startsWith_app_slash_free a s q :
  has_slash s = false →
  Js.startsWith (a +:+ s) (q +:+ "/") = true → Js.startsWith a (q +:+ "/") = true.
Proof.
  intros Hs. revert a. induction q as [|c q IH]; intros [|d a].
  - rewrite append_nil. intros H. by rewrite (slash_free_no_prefix s "") in H.
  - rewrite append_nil, append_cons. cbn. done.
  - rewrite append_nil. intros H. by rewrite slash_free_no_prefix in H.
  - rewrite !append_cons. cbn. intros [-> H]%andb_true_iff. by apply IH.
Qed.

Lemma startsWith_slash_cases x q :
  Js.startsWith (x +:+ "/") (q +:+ "/") = true →
  q = x ∨ Js.startsWith x (q +:+ "/") = true.
Proof.
  revert x. induction q as [|c q IH]; intros [|d x].
  - by left.
  - rewrite append_nil, append_cons. cbn. by right.
  - rewrite append_nil, append_cons. cbn.
    destruct (q +:+ "/") eqn:E; [by destruct q|]. by rewrite andb_false_r.
  - rewrite !append_cons. cbn. intros [Hc H]%andb_true_iff.
    apply Ascii.eqb_eq in Hc as ->.
    destruct (IH x H) as [->|Hx]; [by left|right].
    by rewrite Ascii.eqb_refl, Hx.
Qed.

(** Every ancestor of a path made of segments is built by the loop of
    [expandTreeToPath]. *)
Lemma ancestors_visited segs cur q :
  Forall segment segs → segs ≠ [] → cur ≠ "/" →
  ancestorOrSelf q (cur +:+ "/" +:+ Js.join "/" segs) →
  Js.startsWith (cur +:+ "/") (q +:+ "/") = false →
  q ∈ visitedPaths segs cur.
Proof.
  intros Hsegs. revert cur.
  induction Hsegs as [|s rest [Hs Hslash] Hrest IH]; intros cur Hne Hcur Hq Hlong;
    [done|].
  assert (Hbuild : buildPath s cur = cur +:+ "/" +:+ s).
  { unfold buildPath. apply seq_false in Hcur. by rewrite Hcur. }
  cbn [visitedPaths]. rewrite Hbuild.
  destruct rest as [|s2 rest].
  - cbn [Js.join] in Hq. destruct Hq as [->|Hq]; [apply list_elem_of_here|].
    rewrite <- append_assoc in Hq.
    apply startsWith_app_slash_free in Hq; [congruence|done].
  - change (Js.join "/" (s :: s2 :: rest))
      with (s +:+ "/" +:+ Js.join "/" (s2 :: rest)) in Hq.
    rewrite <- (append_assoc cur "/"), <- (append_assoc (cur +:+ "/") s) in Hq.
    rewrite (append_assoc cur "/" s) in Hq.
    destruct (Js.startsWith ((cur +:+ "/" +:+ s) +:+ "/") (q +:+ "/")) eqn:Hnear.
    + apply startsWith_slash_cases in Hnear as [->|Hnear];
        [apply list_elem_of_here|].
      rewrite <- append_assoc in Hnear.
      apply startsWith_app_slash_free in Hnear; [congruence|done].
    + apply list_elem_of_further. apply IH; [done| |done|done].
      destruct cur as [|c [|d cur]]; [|discriminate..].
      destruct s; [done|]. discriminate.
Qed.

(** [updateSelection] touches the views only. *)
Lemma updateSelection_frame host path w :
  let w' := snd (updateSelection host path w) in
  expandedFolders (state w') = expandedFolders (state w) ∧
  currentPath (state w') = currentPath (state w) ∧
  requests w' = requests w.
Proof.
  cbv zeta. unfold updateSelection, modifyTree, queried, throw.
  unfold mbind, Async_bind, modifyState, getState, mret, Async_ret.
  cbn [state requests treeView setTreeView setListView].
  by destruct (treeItemOf host _ path) as [|[[itemRef ?]|]].
Qed.

(** [handleFolderSelect] from the list view on another path, in direct
    style. *)
Lemma handleFolderSelect_list_unfold host path w :
  path ≠ currentPath (state w) →
  handleFolderSelect host path list_source w =
    let w1 := {| state := setCurrentPath path (state w); requests := requests w |} in
    match fetchFolderContents host path w1 with
    | (Rejected, w2) => (Rejected, w2)
    | (Fulfilled data, w2) =>
        match callUpdateListView host data w2 with
        | (Rejected, w3) => (Rejected, w3)
        | (Fulfilled _, w3) =>
            match expandTreeToPath host path w3 with
            | (Rejected, w4) => (Rejected, w4)
            | (Fulfilled _, w4) => updateSelection host path w4
            end
        end
    end.
Proof.
  intros Hother. unfold handleFolderSelect.
  unfold mbind at 1, Async_bind at 1, getState.
  assert (Hsame : (currentPath (state w) === path) = false)
    by (by apply seq_false).
  rewrite Hsame. cbn [negb orb bool_decide decide_rel].
  rewrite (bool_decide_eq_false_2 (list_source = tree_source)) by done.
  rewrite (bool_decide_eq_true_2 (list_source = list_source)) by done.
  cbn [negb orb].
  unfold mbind, Async_bind, modifyState, mret, Async_ret. cbv zeta.
  destruct (fetchFolderContents host path _) as [[data|] w2]; [|done].
  destruct (callUpdateListView host data w2) as [[[]|] w3]; [|done].
  destruct (expandTreeToPath host path _) as [[[]|] w4]; done.
Qed.

(** What a completed selection from the list view leaves behind, for a
    path other than the current one. *)
Lemma handleFolderSelect_list_outcome host w p :
  p ≠ currentPath (state w) →
  fst (handleFolderSelect host p list_source w) = Fulfilled () →
  let st' := state (snd (handleFolderSelect host p list_source w)) in
  currentPath st' = p ∧
  expandedFolders (state w) ⊆ expandedFolders st' ∧
  (well_formed_path p →
   ∀ q, q ≠ "" → ancestorOrSelf q p → q ≠ "/" → q ∈ expandedFolders st').
Proof.
  intros Hother. rewrite handleFolderSelect_list_unfold by done.
  cbv zeta. unfold fetchFolderContents. cbn [state requests].
  destruct (respond host (length (requests w)) p) as [|data|];
    [discriminate| |discriminate].
  unfold callUpdateListView, modifyState. cbn [state requests].
  set (w3 := {| state := updateListView host (setCurrentPath p (state w)) data;
                requests := requests w ++ [p] |}).
  pose proof (preserves_expandParts grows
    ltac:(by intros ??) ltac:(by intros ??) host
    (filter Js.Boolean (Js.split "/" p)) "" ltac:(intros ??; apply grows_added) w3)
    as [Hsub Hcur].
  pose proof (expandParts_adds host (filter Js.Boolean (Js.split "/" p)) "" w3)
    as Hadds.
  fold (expandTreeToPath host p) in Hsub, Hcur, Hadds.
  destruct (expandTreeToPath host p w3) as [[[]|] w4]; [|discriminate].
  intros _. cbn [fst snd state] in *.
  destruct (updateSelection_frame host p w4) as (Hfolders & Hpath & _).
  cbv zeta in Hfolders, Hpath. rewrite Hfolders, Hpath.
  split; [exact Hcur|]. split; [exact Hsub|].
  intros Hwf q Hq Hanc Hnotroot.
  destruct Hwf as [|segs Hne Hsegs].
  - destruct Hanc as [->|Hanc]; [done|].
    destruct q as [|c q]; [done|].
    rewrite append_cons in Hanc. cbn in Hanc.
    destruct (q +:+ "/") eqn:E; [by destruct q|].
    by rewrite andb_false_r in Hanc.
  - rewrite parts_of_path in Hadds by done.
    apply Hadds; [|done|].
    + apply Forall_forall. intros x Hx.
      by apply (proj1 (Forall_forall _ _) Hsegs x Hx).
    + apply ancestors_visited; [done..| |].
      * exact Hanc.
      * destruct q as [|c q]; [done|].
        rewrite append_nil, append_cons. cbn.
        destruct (q +:+ "/") eqn:E; [by destruct q|].
        by rewrite andb_false_r.
Qed.

(** C7. Selecting a folder from the list view synchronises the tree to
    the new current path. In a world reached through [init],
    [handleFolderSelect] and [toggleFolderExpansion], for a path [p] other
    than the current path, once [handleFolderSelect(state, p, 'list')]
    completes, the current path is [p] and the root is in the expansion
    set; and when [p] is well-formed (the root, or ['/'] followed by
    non-empty segments without ['/'], separated by ['/'], as every path
    the program builds from names is), every non-empty path that starts
    with ['/'] and is [p] or an ancestor of [p] is in the expansion
    set. *)
Theorem handleFolderSelect_list_sync host w p :
  Reachable host w →
  p ≠ currentPath (state w) →
  fst (handleFolderSelect host p list_source w) = Fulfilled () →
  let st' := state (snd (handleFolderSelect host p list_source w)) in
  currentPath st' = p ∧
  "/" ∈ expandedFolders st' ∧
  (well_formed_path p →
   ∀ q, q ≠ "" → Js.startsWith q "/" = true → ancestorOrSelf q p →
        q ∈ expandedFolders st').
Proof.
  intros Hreach Hother Hdone.
  destruct (handleFolderSelect_list_outcome host w p Hother Hdone)
    as (Hcur & Hsub & Hanc).
  pose proof (reachable_root host w Hreach) as Hroot.
  cbv zeta. split; [exact Hcur|]. split; [by apply Hsub|].
  intros Hwf q Hq _ Hq'.
  destruct (decide (q = "/")) as [->|Hnotroot]; [by apply Hsub|].
  by apply Hanc.
Qed.

Lemma handleFolderSelect_list_sync_witness :
  let st' := state (snd (handleFolderSelect sample_host "/docs/sub" list_source browsing)) in
  currentPath st' = "/docs/sub" ∧
  "/" ∈ expandedFolders st' ∧
  "/docs" ∈ expandedFolders st' ∧
  "/docs/sub" ∈ expandedFolders st'.
Proof.
  assert (Hwf : well_formed_path "/docs/sub").
  { apply (wf_segments ["docs"; "sub"]); [discriminate|].
    repeat constructor; discriminate. }
  assert (Hreach : Reachable sample_host browsing)
    by apply reach_init, reach_created.
  assert (Hother : "/docs/sub" ≠ currentPath (state browsing)) by discriminate.
  assert (Hdone : fst (handleFolderSelect sample_host "/docs/sub" list_source browsing)
                  = Fulfilled ()) by reflexivity.
  pose proof (handleFolderSelect_list_sync sample_host browsing "/docs/sub"
                Hreach Hother Hdone) as H.
  cbv zeta in *. destruct H as (Hcur & Hroot & Hanc).
  split; [exact Hcur|]. split; [exact Hroot|]. split.
  - apply (Hanc Hwf); [discriminate|reflexivity|by right].
  - apply (Hanc Hwf); [discriminate|reflexivity|by left].
Defined.

(** *** Witnesses on the sample explorer *)

Lemma removeExpandedFolder_subtree_witness :
  "/parent2" ∈ expandedFolders (removeExpandedFolder parents "/parent") ∧
  "/parent/child1" ∉ expandedFolders (removeExpandedFolder parents "/parent").
Proof.
  destruct (removeExpandedFolder_subtree parents "/parent") as (Hspec & Hstay & _).
  split.
  - apply Hstay; [reflexivity|]. vm_compute. reflexivity.
  - intros Hin. apply Hspec in Hin as (_ & _ & Hpre). discriminate Hpre.
Defined.

Lemma root_permanently_expanded_witness :
  "/" ∈ expandedFolders
    (state (snd (handleFolderSelect sample_host "/docs" tree_source browsing))).
Proof.
  apply (proj2 (proj2 (root_permanently_expanded sample_host))).
  apply (reach_select sample_host browsing "docs" "/" tree_source).
  apply reach_init. apply reach_created.
Defined.

End ExplorerFacts.

(** * Further properties *)

(** ** Paths *)

Module PathLaws.

(** The pieces of a split hold no separator. *)
Lemma pieces_slash_free s :
  Forall (λ piece, has_slash piece = false) (Js.split "/" s).
Proof.
  induction s as [|c s IH]; [by repeat constructor|].
  cbn [Js.split]. destruct (Ascii.eqb c "/") eqn:Hc; [by constructor|].
  destruct (Js.split "/" s) as [|piece pieces].
  { constructor; [cbn; by rewrite Hc|constructor]. }
  inversion IH as [|?? Hpiece Hpieces]; subst. constructor; [|done].
  cbn. by rewrite Hc.
Qed.

(** The non-empty pieces of any string are segments. *)
Lemma parts_are_segments s :
  Forall segment (filter Js.Boolean (Js.split "/" s)).
Proof.
  apply Forall_forall. intros x [Hx Hin]%list_elem_of_filter.
  split; [done|].
  by apply (proj1 (Forall_forall _ _) (pieces_slash_free s)).
Qed.

Lemma Forall_pop {A} (P : A → Prop) (l : list A) :
  Forall P l → Forall P (Js.pop l).
Proof.
  unfold Js.pop. induction 1 as [|x [|y l] Hx Hl IH]; [done|done|].
  cbn. constructor; [done|]. exact IH.
Qed.

Lemma getParentPath_parts path :
  getParentPath path
  = let parts := Js.pop (filter Js.Boolean (Js.split "/" path)) in
    if bool_decide (parts = []) then "/" else "/" +:+ Js.join "/" parts.
Proof.
  unfold getParentPath. cbv zeta.
  destruct (path === "/") eqn:Hroot; cbn [orb].
  { apply seq_true in Hroot as ->. reflexivity. }
  destruct (bool_decide (Js.Boolean path)) eqn:Hne; cbn [negb].
  - by destruct (Js.pop (filter Js.Boolean (Js.split "/" path))).
  - apply bool_decide_eq_false in Hne. unfold Js.Boolean in Hne.
    destruct path; [reflexivity|]. by exfalso; apply Hne.
Qed.

Lemma getParentPath_wf path : well_formed_path (getParentPath path).
Proof.
  rewrite getParentPath_parts. cbv zeta.
  case_bool_decide as Hnil; [constructor|].
  apply wf_segments; [done|]. apply Forall_pop, parts_are_segments.
Qed.

Lemma getParentPath_drops_last path :
  filter Js.Boolean (Js.split "/" (getParentPath path))
  = Js.pop (filter Js.Boolean (Js.split "/" path)).
Proof.
  rewrite getParentPath_parts. cbv zeta.
  case_bool_decide as Hnil; [by rewrite Hnil|].
  apply parts_of_path, Forall_pop, parts_are_segments.
Qed.

(** A well-formed path is the path of its segments, none for the root. *)
Lemma wf_segs p :
  well_formed_path p ↔ ∃ segs, Forall segment segs ∧ p = "/" +:+ Js.join "/" segs.
Proof.
  split.
  - intros [|segs Hne Hall]; [by exists []|by exists segs].
  - intros ([|x segs] & Hall & ->); [constructor|by apply wf_segments].
Qed.

Lemma buildPath_segs name segs :
  Forall segment segs →
  buildPath name ("/" +:+ Js.join "/" segs) = "/" +:+ Js.join "/" (segs ++ [name]).
Proof.
  intros Hall. unfold buildPath. destruct segs as [|x segs].
  - replace ("/" +:+ Js.join "/" [] === "/") with true; [done|].
    symmetry. by apply seq_true.
  - assert (Hnr : "/" +:+ Js.join "/" (x :: segs) ≠ "/").
    { inversion Hall as [|?? [Hx _]]; subst. destruct x; [done|].
      destruct segs; discriminate. }
    apply seq_false in Hnr. rewrite Hnr.
    rewrite join_snoc by done. by rewrite !append_assoc.
Qed.

Lemma buildPath_wf name parentPath :
  segment name → well_formed_path parentPath →
  well_formed_path (buildPath name parentPath) ∧
  filter Js.Boolean (Js.split "/" (buildPath name parentPath))
  = filter Js.Boolean (Js.split "/" parentPath) ++ [name].
Proof.
  intros Hname (segs & Hall & ->)%wf_segs.
  rewrite buildPath_segs by done.
  assert (Hall' : Forall segment (segs ++ [name]))
    by (apply Forall_app; split; [done|by constructor]).
  split.
  - apply wf_segments; [by destruct segs|done].
  - by rewrite !parts_of_path.
Qed.

Lemma buildPath_inj name name' parentPath parentPath' :
  segment name → segment name' →
  well_formed_path parentPath → well_formed_path parentPath' →
  buildPath name parentPath = buildPath name' parentPath' →
  name = name' ∧ parentPath = parentPath'.
Proof.
  intros Hname Hname' (segs & Hall & ->)%wf_segs (segs' & Hall' & ->)%wf_segs Heq.
  rewrite !buildPath_segs in Heq by done.
  assert (Hparts : segs ++ [name] = segs' ++ [name']).
  { rewrite <- (parts_of_path (segs ++ [name])),
            <- (parts_of_path (segs' ++ [name'])), Heq; [done|..];
      apply Forall_app; split; try done; by constructor. }
  apply app_inj_tail in Hparts as [-> ->]. done.
Qed.

(** X1. Whatever string it is given, [getParentPath] answers with a
    well-formed path: the root, or ['/'] followed by non-empty segments
    without ['/'], separated by single ['/']. *)
Theorem getParentPath_well_formed path : well_formed_path (getParentPath path).
Proof. apply getParentPath_wf. Qed.

(** X2. [getParentPath] drops exactly the last non-empty segment of any
    path, empty segments (doubled or trailing ['/']) being ignored: the
    segments of the answer are those of the argument without the last. *)
Theorem getParentPath_segments path :
  filter Js.Boolean (Js.split "/" (getParentPath path))
  = Js.pop (filter Js.Boolean (Js.split "/" path)).
Proof. apply getParentPath_drops_last. Qed.

(** X3. [buildPath] keeps paths well-formed and appends exactly one
    segment: for a non-empty name without ['/'] and a well-formed parent
    path, the result is well-formed and its segments are the parent's
    followed by the name. *)
Theorem buildPath_well_formed name parentPath :
  segment name → well_formed_path parentPath →
  well_formed_path (buildPath name parentPath) ∧
  filter Js.Boolean (Js.split "/" (buildPath name parentPath))
  = filter Js.Boolean (Js.split "/" parentPath) ++ [name].
Proof. apply buildPath_wf. Qed.

Lemma buildPath_well_formed_witness :
  well_formed_path (buildPath "sub" "/docs") ∧
  filter Js.Boolean (Js.split "/" (buildPath "sub" "/docs"))
  = filter Js.Boolean (Js.split "/" "/docs") ++ ["sub"].
Proof.
  apply (buildPath_well_formed "sub" "/docs").
  - split; [discriminate|reflexivity].
  - apply (wf_segments ["docs"]); [discriminate|].
    repeat constructor; discriminate.
Defined.

(** X4. [buildPath] is injective on well-formed inputs: two children get
    the same path only if they have the same name and the same parent. *)
Theorem buildPath_injective name name' parentPath parentPath' :
  segment name → segment name' →
  well_formed_path parentPath → well_formed_path parentPath' →
  buildPath name parentPath = buildPath name' parentPath' →
  name = name' ∧ parentPath = parentPath'.
Proof. apply buildPath_inj. Qed.

Lemma buildPath_injective_witness :
  "sub" = "sub" ∧ "/docs" = "/docs".
Proof.
  apply (buildPath_injective "sub" "sub" "/docs" "/docs").
  - split; [discriminate|reflexivity].
  - split; [discriminate|reflexivity].
  - apply (wf_segments ["docs"]); [discriminate|].
    repeat constructor; discriminate.
  - apply (wf_segments ["docs"]); [discriminate|].
    repeat constructor; discriminate.
  - reflexivity.
Defined.

End PathLaws.

(** ** The directory-listing endpoint *)

Module ServerLaws.
Import Server ServerSamples ServerFacts.

Lemma listFiles_ok_iff dirname req fs :
  status (fst (listFiles dirname req fs)) = 200 ↔
    Js.startsWith (resolvedPath dirname req) dirname = true ∧
    ∃ stats names,
      stat fs (resolvedPath dirname req) = Some stats ∧
      isDirectory stats = true ∧
      readdir fs (resolvedPath dirname req) = Some names ∧
      ∀ child, child ∈ names →
        is_Some (stat fs (NodePath.join (resolvedPath dirname req) child)).
Proof.
  rewrite listFiles_unfold. cbv zeta.
  set (fullPath := resolvedPath dirname req).
  destruct (Js.startsWith fullPath dirname); cbn [negb].
  2:{ split; [discriminate|]. by intros [? _]. }
  destruct (stat fs fullPath) as [stats|].
  2:{ split; [discriminate|]. by intros (_ & ? & ? & ? & _). }
  destruct (isDirectory stats) eqn:Hdir; cbn [negb].
  2:{ split; [discriminate|]. intros (_ & ? & ? & [= <-] & ? & _). congruence. }
  destruct (readdir fs fullPath) as [names|].
  2:{ split; [discriminate|]. by intros (_ & ? & ? & _ & _ & ? & _). }
  cbn [fst].
  destruct (mapM _ names) as [items|] eqn:Hitems.
  - split; [|done]. intros _. split; [done|]. exists stats, names.
    repeat split; try done. intros child Hchild.
    assert (Hsome : is_Some (mapM (λ name, itemOf name <$>
              stat fs (NodePath.join fullPath name)) names)) by by eexists.
    apply mapM_is_Some_1 in Hsome.
    apply (proj1 (Forall_forall _ _) Hsome) in Hchild.
    unfold compose in Hchild. destruct Hchild as [item Hitem].
    destruct (stat fs (NodePath.join fullPath child)); [by eexists|discriminate].
  - split; [discriminate|]. intros (_ & ? & names' & _ & _ & [= <-] & Hall).
    exfalso. apply mapM_None_1, Exists_exists in Hitems as (child & Hchild & Hnone).
    destruct (Hall child Hchild) as [st Hst]. rewrite Hst in Hnone. discriminate.
Qed.

Lemma listFiles_status_cases dirname req fs :
  status (fst (listFiles dirname req fs)) ∈ [200; 400; 403; 500].
Proof.
  rewrite listFiles_unfold. cbv zeta.
  repeat case_match; cbn [fst status json];
    repeat first [apply list_elem_of_here | apply list_elem_of_further].
Qed.

(** X5. The handler answers with one of the four statuses 200, 400, 403
    and 500, and with 200 exactly when the resolved path passes the prefix
    test, its stat resolves to a directory, [readdir] resolves, and the
    stat of every name [readdir] returned resolves. *)
Theorem listFiles_status dirname req fs :
  status (fst (listFiles dirname req fs)) ∈ [200; 400; 403; 500] ∧
  (status (fst (listFiles dirname req fs)) = 200 ↔
     Js.startsWith (resolvedPath dirname req) dirname = true ∧
     ∃ stats names,
       stat fs (resolvedPath dirname req) = Some stats ∧
       isDirectory stats = true ∧
       readdir fs (resolvedPath dirname req) = Some names ∧
       ∀ child, child ∈ names →
         is_Some (stat fs (NodePath.join (resolvedPath dirname req) child))).
Proof. split; [apply listFiles_status_cases|apply listFiles_ok_iff]. Qed.

(** X6. The handler touches the filesystem in a fixed discipline: it makes
    no call at all unless the resolved path passes the prefix test; it
    reads a directory only at the resolved path, and only after the stat of
    that path resolved to a directory; and every stat is of the resolved
    path or of a name that [readdir] returned, joined to it. *)
Theorem listFiles_call_discipline dirname req fs :
  let fullPath := resolvedPath dirname req in
  let calls := snd (listFiles dirname req fs) in
  (Js.startsWith fullPath dirname = false ↔ calls = []) ∧
  (∀ p, CallReaddir p ∈ calls →
        p = fullPath ∧
        ∃ stats, stat fs fullPath = Some stats ∧ isDirectory stats = true) ∧
  (∀ p, CallStat p ∈ calls →
        p = fullPath ∨
        ∃ names child, readdir fs fullPath = Some names ∧ child ∈ names ∧
                       p = NodePath.join fullPath child).
Proof.
  cbv zeta. rewrite listFiles_unfold. cbv zeta.
  set (fullPath := resolvedPath dirname req).
  destruct (Js.startsWith fullPath dirname); cbn [negb].
  2:{ split; [done|]. split; intros p Hp; by apply elem_of_nil in Hp. }
  destruct (stat fs fullPath) as [stats|].
  2:{ split; [done|]. split; intros p Hp; cbn in Hp.
      - apply list_elem_of_singleton in Hp. discriminate.
      - apply list_elem_of_singleton in Hp as [= ->]. by left. }
  destruct (isDirectory stats) eqn:Hdir; cbn [negb].
  2:{ split; [done|]. split; intros p Hp; cbn in Hp.
      - apply list_elem_of_singleton in Hp. discriminate.
      - apply list_elem_of_singleton in Hp as [= ->]. by left. }
  destruct (readdir fs fullPath) as [names|]; cbn [snd].
  2:{ split; [done|]. split; intros p Hp.
      - apply elem_of_cons in Hp as [Hp|Hp]; [discriminate|].
        apply list_elem_of_singleton in Hp as [= ->]. eauto.
      - apply elem_of_cons in Hp as [[= ->]|Hp]; [by left|].
        apply list_elem_of_singleton in Hp. discriminate. }
  split; [done|]. split; intros p Hp.
  - apply elem_of_app in Hp as [Hp|Hp].
    + apply elem_of_cons in Hp as [Hp|Hp]; [discriminate|].
      apply list_elem_of_singleton in Hp as [= ->]. eauto.
    + apply list_elem_of_fmap in Hp as (child & Hp & _). discriminate.
  - apply elem_of_app in Hp as [Hp|Hp].
    + apply elem_of_cons in Hp as [[= ->]|Hp]; [by left|].
      apply list_elem_of_singleton in Hp. discriminate.
    + apply list_elem_of_fmap in Hp as (child & [= ->] & Hchild).
      right. by exists names, child.
Qed.

End ServerLaws.

(** ** The explorer *)

Module ExplorerLaws.
Import Dom Explorer DomFacts ExplorerSamples ExplorerFacts PathLaws.

(** *** What a call sends *)

(** A toggle sends at most one request, for its own path. *)
Lemma toggle_requests host path force w :
  ∃ sent, requests (snd (toggleFolderExpansion host path force w)) = requests w ++ sent
          ∧ (sent = [] ∨ sent = [path]).
Proof.
  destruct (decide (path = "/")) as [->|Hroot].
  { exists []. by rewrite app_nil_r; split; [|left]. }
  rewrite toggleFolderExpansion_unfold by done. cbv zeta.
  repeat case_match; cbn [snd requests];
    first [ by exists [path]; split; [|right]
          | exists []; by rewrite app_nil_r; split; [|left] ].
Qed.

Lemma expandParts_requests host pathParts currentPath w :
  ∃ sent, requests (snd (expandParts host pathParts currentPath w)) = requests w ++ sent
          ∧ sublist sent (visitedPaths pathParts currentPath).
Proof.
  revert currentPath w.
  induction pathParts as [|part rest IH]; intros cur w; cbn [expandParts visitedPaths].
  { exists []. by rewrite app_nil_r. }
  unfold mbind, Async_bind.
  destruct (toggle_requests host (buildPath part cur) (Some true) w)
    as (sent & Hsent & Hcases).
  destruct (toggleFolderExpansion host (buildPath part cur) (Some true) w)
    as [[[]|] w1]; cbn [snd] in *.
  - destruct (IH (buildPath part cur) w1) as (sent' & Hsent' & Hsub).
    exists (sent ++ sent'). rewrite Hsent', Hsent, app_assoc. split; [done|].
    destruct Hcases as [->| ->]; cbn; by constructor.
  - exists sent. split; [done|].
    destruct Hcases as [->| ->]; [apply sublist_nil_l|].
    apply sublist_skip, sublist_nil_l.
Qed.

Lemma startsWith_app s t : Js.startsWith (s +:+ t) s = true.
Proof.
  induction s as [|c s IH]; [by destruct t|].
  rewrite append_cons. cbn. by rewrite Ascii.eqb_refl, IH.
Qed.

(** The paths the loop of [expandTreeToPath] builds are the path it is
    given or ancestors of it. *)
Lemma visited_ancestors segs cur q :
  Forall segment segs → cur ≠ "/" →
  q ∈ visitedPaths segs cur →
  ancestorOrSelf q (cur +:+ "/" +:+ Js.join "/" segs).
Proof.
  intros Hsegs. revert cur.
  induction Hsegs as [|s rest [Hs Hslash] Hrest IH]; intros cur Hcur Hq.
  { by apply elem_of_nil in Hq. }
  assert (Hbuild : buildPath s cur = cur +:+ "/" +:+ s).
  { unfold buildPath. apply seq_false in Hcur. by rewrite Hcur. }
  cbn [visitedPaths] in Hq. rewrite Hbuild in Hq.
  destruct rest as [|s2 rest].
  { apply elem_of_cons in Hq as [->|Hq]; [by left|]. by apply elem_of_nil in Hq. }
  change (Js.join "/" (s :: s2 :: rest))
    with (s +:+ "/" +:+ Js.join "/" (s2 :: rest)).
  assert (Hp : cur +:+ "/" +:+ s +:+ "/" +:+ Js.join "/" (s2 :: rest)
             = (cur +:+ "/" +:+ s) +:+ "/" +:+ Js.join "/" (s2 :: rest))
    by (by rewrite !append_assoc).
  rewrite Hp.
  apply elem_of_cons in Hq as [->|Hq].
  - right. rewrite <- append_assoc. apply startsWith_app.
  - apply IH; [|done].
    destruct cur as [|c [|d cur]]; [|discriminate..].
    destruct s; [done|]. discriminate.
Qed.

(** [handleFolderSelect] from the tree view, in direct style. *)
Lemma handleFolderSelect_tree_unfold host path w :
  handleFolderSelect host path tree_source w =
    let w1 := {| state := setCurrentPath path (state w); requests := requests w |} in
    match fetchFolderContents host path w1 with
    | (Rejected, w2) => (Rejected, w2)
    | (Fulfilled data, w2) =>
        match callUpdateListView host data w2 with
        | (Rejected, w3) => (Rejected, w3)
        | (Fulfilled _, w3) =>
            match toggleFolderExpansion host path None w3 with
            | (Rejected, w4) => (Rejected, w4)
            | (Fulfilled _, w4) => updateSelection host path w4
            end
        end
    end.
Proof.
  unfold handleFolderSelect.
  unfold mbind at 1, Async_bind at 1, getState.
  rewrite (bool_decide_eq_true_2 (tree_source = tree_source)) by done.
  rewrite (bool_decide_eq_false_2 (tree_source = list_source)) by done.
  cbn [orb].
  unfold mbind, Async_bind, modifyState, mret, Async_ret. cbv zeta.
  destruct (fetchFolderContents host path _) as [[data|] w2]; [|done].
  destruct (callUpdateListView host data w2) as [[[]|] w3]; [|done].
  destruct (toggleFolderExpansion host path None _) as [[[]|] w4]; done.
Qed.

(** X7. [expandTreeToPath] on a well-formed path sends requests only for
    the path and its ancestors, each at most once and parents before
    children: what it sends is a sublist of the paths its loop builds. *)
Theorem expandTreeToPath_requests host path w :
  well_formed_path path →
  ∃ sent,
    requests (snd (expandTreeToPath host path w)) = requests w ++ sent ∧
    sublist sent (visitedPaths (filter Js.Boolean (Js.split "/" path)) "") ∧
    Forall (λ q, ancestorOrSelf q path) sent.
Proof.
  intros (segs & Hsegs & ->)%wf_segs. unfold expandTreeToPath. cbv zeta.
  rewrite parts_of_path by done.
  destruct (expandParts_requests host segs "" w) as (sent & Hsent & Hsub).
  exists sent. split; [done|]. split; [done|].
  apply Forall_forall. intros q Hq.
  apply (visited_ancestors segs "" q); [done|discriminate|].
  by apply (sublist_subseteq _ _ Hsub).
Qed.

Lemma expandTreeToPath_requests_witness :
  ∃ sent,
    requests (snd (expandTreeToPath sample_host "/docs/sub" browsing))
      = requests browsing ++ sent ∧
    sublist sent (visitedPaths (filter Js.Boolean (Js.split "/" "/docs/sub")) "") ∧
    Forall (λ q, ancestorOrSelf q "/docs/sub") sent.
Proof.
  apply (expandTreeToPath_requests sample_host "/docs/sub" browsing).
  apply (wf_segments ["docs"; "sub"]); [discriminate|].
  repeat constructor; discriminate.
Defined.

(** X8. When the request for the list view rejects, [handleFolderSelect]
    rejects having changed nothing but the current path, which already
    names the new folder: the views and the expansion set are as before,
    and the one request was sent. *)
Theorem handleFolderSelect_fetch_rejected host path source w :
  source = tree_source ∨ path ≠ currentPath (state w) →
  respond host (length (requests w)) path = FetchRejected →
  handleFolderSelect host path source w
  = (Rejected, {| state := setCurrentPath path (state w);
                  requests := requests w ++ [path] |}).
Proof.
  intros Hfetch Hrej. unfold handleFolderSelect.
  unfold mbind at 1, Async_bind at 1, getState.
  assert (Hcond : bool_decide (source = tree_source)
                  || negb (currentPath (state w) === path) = true).
  { destruct Hfetch as [->|Hother]; [done|].
    apply orb_true_iff. right. apply negb_true_iff, seq_false. congruence. }
  rewrite Hcond.
  unfold mbind, Async_bind, modifyState, fetchFolderContents. cbn [state requests].
  by rewrite Hrej.
Qed.

Lemma handleFolderSelect_fetch_rejected_witness :
  handleFolderSelect sample_host "/offline" list_source browsing
  = (Rejected, {| state := setCurrentPath "/offline" (state browsing);
                  requests := requests browsing ++ ["/offline"] |}).
Proof.
  apply (handleFolderSelect_fetch_rejected sample_host "/offline" list_source browsing).
  - right. discriminate.
  - reflexivity.
Defined.

(** *** Selecting from the tree view *)

(** What it means that the program finds the child container of a path:
    its selector finds the tree item, and the container is the first
    element of class ['tree-children'] inside it. *)
Lemma childContainerOf_found host view path ref container :
  childContainerOf host view path = Returned (Some (ref, container)) →
  ∃ itemRef treeItem containerRef,
    treeItemOf host view path = Returned (Some (itemRef, treeItem)) ∧
    querySelector (ByClasses ["tree-children"]) treeItem
      = Some (containerRef, container) ∧
    ref = itemRef ++ containerRef ∧
    get view ref = Some container.
Proof.
  unfold childContainerOf. intros H.
  destruct (treeItemOf host view path) as [|[[itemRef treeItem]|]] eqn:Hitem;
    [discriminate| |discriminate].
  cbn in H.
  destruct (querySelector (ByClasses ["tree-children"]) treeItem)
    as [[containerRef c]|] eqn:Hquery; [|discriminate].
  cbn in H. injection H as <- <-.
  exists itemRef, treeItem, containerRef.
  split; [done|]. split; [done|]. split; [done|].
  rewrite get_app.
  apply treeItemOf_get in Hitem as ->. cbn.
  by apply querySelector_get in Hquery as [-> _].
Qed.

(** X9. Selecting from the tree view a folder that is collapsed and whose
    children were not loaded yet sends two requests for the same path, one
    for the list view and one for the tree: nothing is cached between the
    views. The folder is one whose tree item the program's selector finds,
    with a child container that has no child elements, and the request for
    the list view resolves to a listing. *)
Theorem handleFolderSelect_tree_two_requests host path w ref container data :
  path ≠ "/" →
  path ∉ expandedFolders (state w) →
  childContainerOf host (treeView (state w)) path = Returned (Some (ref, container)) →
  children container = [] →
  respond host (length (requests w)) path = FetchResolved data →
  requests (snd (handleFolderSelect host path tree_source w))
  = requests w ++ [path; path].
Proof.
  intros Hroot Hnew Hcontainer Hempty Hdata.
  rewrite handleFolderSelect_tree_unfold. cbv zeta.
  unfold fetchFolderContents at 1. cbn [state requests]. rewrite Hdata.
  unfold callUpdateListView, modifyState. cbn [state requests].
  set (w3 := {| state := updateListView host (setCurrentPath path (state w)) data;
                requests := requests w ++ [path] |}).
  assert (Hsent : requests (snd (toggleFolderExpansion host path None w3))
                  = requests w3 ++ [path]).
  { rewrite toggleFolderExpansion_unfold by done. cbv zeta.
    change (treeView (state w3)) with (treeView (state w)).
    unfold childContainerOf in Hcontainer.
    destruct (treeItemOf host (treeView (state w)) path)
      as [|[[itemRef treeItem]|]]; [discriminate| |discriminate].
    cbn in Hcontainer.
    destruct (querySelector (ByClasses ["tree-children"]) treeItem)
      as [[containerRef c]|]; [|discriminate].
    cbn in Hcontainer. injection Hcontainer as <- <-.
    assert (Hexpand : shouldExpand (state w3) path None = true).
    { cbn. unfold has. cbn. by rewrite bool_decide_eq_false_2. }
    rewrite Hexpand, Hempty. cbn [andb length bool_decide].
    rewrite (bool_decide_eq_true_2 (0 = 0)) by done.
    by destruct (respond host (length (requests w3)) path). }
  destruct (toggleFolderExpansion host path None w3) as [[[]|] w4];
    cbn [snd requests] in *; [|rewrite Hsent; cbn; by rewrite <- app_assoc].
  destruct (updateSelection_frame host path w4) as (_ & _ & ->).
  rewrite Hsent. cbn. by rewrite <- app_assoc.
Qed.

Lemma handleFolderSelect_tree_two_requests_witness :
  requests (snd (handleFolderSelect sample_host "/docs" tree_source browsing))
  = requests browsing ++ ["/docs"; "/docs"].
Proof.
  eapply (handleFolderSelect_tree_two_requests sample_host "/docs" browsing).
  - discriminate.
  - intros Hin. vm_compute in Hin. discriminate Hin.
  - vm_compute. reflexivity.
  - reflexivity.
  - reflexivity.
Defined.

(** What a selection from the tree view does to the expansion set once
    the request for the list view resolved. *)
Lemma handleFolderSelect_tree_folders host path w data :
  path ≠ "/" →
  respond host (length (requests w)) path = FetchResolved data →
  expandedFolders (state (snd (handleFolderSelect host path tree_source w)))
  = expandedFolders (toggled (state w) path (negb (has (state w) path))).
Proof.
  intros Hroot Hdata.
  rewrite handleFolderSelect_tree_unfold. cbv zeta.
  unfold fetchFolderContents at 1. cbn [state requests]. rewrite Hdata.
  unfold callUpdateListView, modifyState. cbn [state requests].
  set (w3 := {| state := updateListView host (setCurrentPath path (state w)) data;
                requests := requests w ++ [path] |}).
  pose proof (toggleFolderExpansion_folders host path None w3 Hroot) as [Hfolders _].
  cbv zeta in Hfolders.
  destruct (toggleFolderExpansion host path None w3) as [[[]|] w4];
    cbn [snd state] in *.
  - destruct (updateSelection_frame host path w4) as (-> & _ & _).
    rewrite Hfolders. unfold toggled, shouldExpand, has. cbn.
    by destruct (bool_decide (path ∈ expandedFolders (state w))).
  - rewrite Hfolders. unfold toggled, shouldExpand, has. cbn.
    by destruct (bool_decide (path ∈ expandedFolders (state w))).
Qed.

(** X10. A selection from the tree view toggles the folder: for a path
    other than the root, once the request for the list view resolved, the
    path is expanded afterwards exactly when it was not before, whether or
    not the later request for the tree children resolves. *)
Theorem handleFolderSelect_tree_toggles host path w data :
  path ≠ "/" →
  respond host (length (requests w)) path = FetchResolved data →
  (path ∈ expandedFolders (state (snd (handleFolderSelect host path tree_source w)))
   ↔ path ∉ expandedFolders (state w)).
Proof.
  intros Hroot Hdata.
  rewrite (handleFolderSelect_tree_folders host path w data) by done.
  unfold has. case_bool_decide as Hin; cbn [negb toggled].
  - rewrite removeExpandedFolder_elem. split; [by intros (_ & ? & _)|done].
  - cbn. split; [done|]. intros _. apply elem_of_union. left.
    by apply elem_of_singleton.
Qed.

Lemma handleFolderSelect_tree_toggles_witness :
  "/docs" ∈ expandedFolders
    (state (snd (handleFolderSelect sample_host "/docs" tree_source browsing))).
Proof.
  apply (handleFolderSelect_tree_toggles sample_host "/docs" browsing
    [{| type := folder; name := "sub";
        modified := "2024-05-03T09:00:00.000Z"; size := None |}]).
  - discriminate.
  - reflexivity.
  - intros Hin. vm_compute in Hin. discriminate Hin.
Defined.

(** X11. Selecting the root from the tree view navigates and never
    collapses: whatever the network answers, the expansion set is
    unchanged, the current path is ['/'] and exactly one request, for
    ['/'], was sent. *)
Theorem handleFolderSelect_tree_root host w :
  let w' := snd (handleFolderSelect host "/" tree_source w) in
  expandedFolders (state w') = expandedFolders (state w) ∧
  currentPath (state w') = "/" ∧
  requests w' = requests w ++ ["/"].
Proof.
  cbv zeta. rewrite handleFolderSelect_tree_unfold. cbv zeta.
  unfold fetchFolderContents. cbn [state requests].
  destruct (respond host (length (requests w)) "/"); [done| |done].
  unfold callUpdateListView, modifyState. cbn [state requests].
  change (toggleFolderExpansion host "/" None) with (@mret Async _ _ ()).
  unfold mret, Async_ret.
  destruct (updateSelection_frame host "/"
    {| state := updateListView host (setCurrentPath "/" (state w)) data;
       requests := requests w ++ ["/"] |}) as (-> & -> & ->).
  done.
Qed.

(** *** Expanding and collapsing *)

(** X12. Expanding a folder and collapsing it again leaves the expansion
    set as it was, less whatever was expanded below the folder: for a path
    other than the root that is not expanded, after two calls of
    [toggleFolderExpansion] without a forced state the set holds exactly
    the previous members that do not start with the path followed by
    ['/']. *)
Theorem toggleFolderExpansion_twice host path w :
  path ≠ "/" →
  path ∉ expandedFolders (state w) →
  let w1 := snd (toggleFolderExpansion host path None w) in
  let w2 := snd (toggleFolderExpansion host path None w1) in
  ∀ q, q ∈ expandedFolders (state w2)
       ↔ q ∈ expandedFolders (state w) ∧ Js.startsWith q (path +:+ "/") = false.
Proof.
  intros Hroot Hnew. cbv zeta. intros q.
  pose proof (toggleFolderExpansion_folders host path None w Hroot) as [H1 _].
  pose proof (toggleFolderExpansion_folders host path None
                (snd (toggleFolderExpansion host path None w)) Hroot) as [H2 _].
  cbv zeta in H1, H2. rewrite H2. clear H2.
  assert (Hfirst : shouldExpand (state w) path None = true).
  { cbn. unfold has. by rewrite bool_decide_eq_false_2. }
  rewrite Hfirst in H1. cbn [toggled expandedFolders setExpandedFolders] in H1.
  assert (Hsecond : shouldExpand
            (state (snd (toggleFolderExpansion host path None w))) path None = false).
  { cbn. unfold has. rewrite bool_decide_eq_true_2; [done|].
    rewrite H1. apply elem_of_union. left. by apply elem_of_singleton. }
  rewrite Hsecond. cbn [toggled]. rewrite removeExpandedFolder_elem, H1.
  rewrite elem_of_union, elem_of_singleton. split.
  - intros ([->|Hq] & Hne & Hpre); done.
  - intros [Hq Hpre]. split; [by right|]. split; [|done]. by intros ->.
Qed.

Lemma toggleFolderExpansion_twice_witness :
  "/" ∈ expandedFolders
    (state (snd (toggleFolderExpansion sample_host "/docs" None
      (snd (toggleFolderExpansion sample_host "/docs" None browsing))))).
Proof.
  apply (toggleFolderExpansion_twice sample_host "/docs" browsing).
  - discriminate.
  - intros Hin. vm_compute in Hin. discriminate Hin.
  - split; [vm_compute; reflexivity|reflexivity].
Defined.

(** *** What leaves the current path alone *)

Lemma sameCurrentPath_preorder :
  PreOrder (λ st st' : ExplorerState, currentPath st' = currentPath st).
Proof. split; [by intros ?|]. intros a b c Hab Hbc. congruence. Qed.

#[local] Existing Instance sameCurrentPath_preorder.

(** X13. Only [handleFolderSelect] moves the current path:
    [toggleFolderExpansion], [expandTreeToPath] and [init] leave it as it
    was, whatever they are called with and however they settle. *)
Theorem currentPath_untouched host path force w :
  currentPath (state (snd (toggleFolderExpansion host path force w)))
    = currentPath (state w) ∧
  currentPath (state (snd (expandTreeToPath host path w))) = currentPath (state w) ∧
  currentPath (state (snd (init host w))) = currentPath (state w).
Proof.
  split; [|split].
  - apply (preserves_toggleFolderExpansion
             (λ st st', currentPath st' = currentPath st));
      try done; intros; apply toggled_currentPath.
  - apply (preserves_expandParts
             (λ st st', currentPath st' = currentPath st));
      try done; intros; apply toggled_currentPath.
  - by apply (preserves_init (λ st st', currentPath st' = currentPath st)).
Qed.

(** *** The parent row *)

Lemma pop_fixed {A} (l : list A) : Js.pop l = l → l = [].
Proof.
  unfold Js.pop. destruct l as [|x l] using rev_ind; [done|].
  rewrite removelast_last. intros H.
  apply (f_equal length) in H. rewrite length_app in H. cbn in H. lia.
Qed.

Lemma getParentPath_moves path : path ≠ "/" → getParentPath path ≠ path.
Proof.
  intros Hroot Hfix.
  pose proof (getParentPath_drops_last path) as Hparts.
  rewrite Hfix in Hparts. symmetry in Hparts. apply pop_fixed in Hparts.
  rewrite getParentPath_parts in Hfix. cbv zeta in Hfix.
  rewrite Hparts in Hfix. cbn in Hfix. congruence.
Qed.

(** X14. The parent row goes up exactly one level: from a current path
    other than the root, a completed click on the parent row makes the
    parent path the current path, its segments being those of the old
    current path without the last, and leaves that path and every ancestor
    of it, the root apart, expanded. *)
Theorem click_parent_row host w :
  currentPath (state w) ≠ "/" →
  fst (click host SelectParent w) = Fulfilled () →
  let st' := state (snd (click host SelectParent w)) in
  currentPath st' = getParentPath (currentPath (state w)) ∧
  filter Js.Boolean (Js.split "/" (currentPath st'))
    = Js.pop (filter Js.Boolean (Js.split "/" (currentPath (state w)))) ∧
  ∀ q, q ≠ "" → q ≠ "/" → ancestorOrSelf q (currentPath st') →
       q ∈ expandedFolders st'.
Proof.
  intros Hroot. cbn [click]. unfold mbind at 1 2 3 4, Async_bind at 1 2 3 4, getState.
  intros Hdone.
  destruct (handleFolderSelect_list_outcome host w
              (getParentPath (currentPath (state w)))) as (Hcur & _ & Hanc);
    [by apply getParentPath_moves|exact Hdone|].
  cbv zeta in *. rewrite Hcur. split; [done|].
  split; [apply getParentPath_drops_last|].
  intros q Hq Hq' Hqanc. by apply Hanc; [apply getParentPath_wf|..].
Qed.

Lemma click_parent_row_witness :
  let w := snd (handleFolderSelect sample_host "/docs/sub" list_source browsing) in
  currentPath (state (snd (click sample_host SelectParent w))) = "/docs".
Proof.
  cbv zeta.
  refine (proj1 (click_parent_row sample_host
    (snd (handleFolderSelect sample_host "/docs/sub" list_source browsing)) _ _)).
  - discriminate.
  - reflexivity.
Defined.

(** *** Rendering the tree *)

(** X15. [init] sends exactly one request, for the root, and completes
    exactly when that request resolves to a listing. When the request
    rejects, the state is left as it was. When it resolves to something
    that is not an array, as the error object of the server is, [init]
    rejects after [updateTreeView] cleared the tree view and drew the
    root item, which is all the tree then holds, its child container
    empty; the list view is as it was. In every case the expansion set and
    the current path are as they were. *)
Theorem init_outcome host w :
  let w' := snd (init host w) in
  requests w' = requests w ++ ["/"] ∧
  (fst (init host w) = Fulfilled ()
   ↔ ∃ data, respond host (length (requests w)) "/" = FetchResolved data) ∧
  (respond host (length (requests w)) "/" = FetchRejected → state w' = state w) ∧
  (respond host (length (requests w)) "/" = FetchResolvedOther →
     fst (init host w) = Rejected ∧
     listView (state w') = listView (state w) ∧
     ∃ rootItem container,
       children (treeView (state w')) = [rootItem] ∧
       dataPath (attrs rootItem) = Some "/" ∧
       querySelector (ByClasses ["tree-children"]) rootItem = Some ([1], container) ∧
       childNodes container = []) ∧
  expandedFolders (state w') = expandedFolders (state w) ∧
  currentPath (state w') = currentPath (state w).
Proof.
  cbv zeta.
  unfold init, callUpdateTreeView, callUpdateListView, modifyTree, throw.
  unfold mbind, Async_bind, fetchFolderContents, modifyState.
  cbn [state requests].
  destruct (respond host (length (requests w)) "/") as [|data|];
    cbn [fst snd state requests bool_decide decide_rel].
  - split; [done|]. split; [split; [discriminate|by intros [? ?]]|].
    split; [done|]. split; [discriminate|done].
  - split; [done|]. split; [split; [by eexists|done]|].
    split; [discriminate|]. split; [discriminate|done].
  - split; [done|]. split; [split; [discriminate|by intros [? ?]]|].
    split; [discriminate|]. split; [|done]. intros _.
    split; [done|]. split; [done|].
    destruct (treeView (state w)) as [a ns]. by do 2 eexists.
Qed.

Lemma children_append {A} (f : A → Element) (l : list A) e :
  children (append (map (λ x, inr (f x)) l) e) = children e ++ map f l.
Proof.
  unfold children, append. cbn [childNodes]. rewrite omap_app. f_equal.
  induction l as [|x l IH]; [done|]. cbn. by rewrite IH.
Qed.

Lemma treeNode_dataPath level parentPath item :
  dataPath (attrs (treeNode level parentPath item))
  = Some (buildPath (name item) parentPath).
Proof. unfold treeNode. cbv zeta. by destruct (type item). Qed.

(** X16. A completed [init] rebuilds the tree from nothing: the tree view
    holds one element, the root item, found under the path ['/'] and
    marked open; the root's child container holds exactly one tree node
    per item of the answer, in order, each found under the path
    [buildPath] gives its name below the root. *)
Theorem init_tree host w data :
  respond host (length (requests w)) "/" = FetchResolved data →
  let tree := treeView (state (snd (init host w))) in
  (∃ rootItem,
      children tree = [rootItem] ∧
      treeItemOf host tree "/" = Returned (Some ([0], rootItem)) ∧
      "open" ∈ classList (attrs rootItem)) ∧
  (∃ container,
      childContainerOf host tree "/" = Returned (Some ([0; 1], container)) ∧
      children container = map (treeNode 0 "/") data) ∧
  (∀ item, dataPath (attrs (treeNode 0 "/" item))
           = Some (buildPath (name item) "/")).
Proof.
  intros Hdata. cbv zeta.
  unfold init, callUpdateTreeView, callUpdateListView, modifyTree.
  unfold mbind, Async_bind, fetchFolderContents, modifyState.
  cbn [state requests]. rewrite Hdata. cbn [fst snd state requests treeView
    updateListView setListView setTreeView modifyAt].
  destruct (treeView (state w)) as [a ns].
  split; [|split; [|intros item; apply treeNode_dataPath]].
  - eexists. split; [reflexivity|]. split; [reflexivity|].
    cbn. repeat first [apply list_elem_of_here | apply list_elem_of_further].
  - eexists. split; [reflexivity|]. rewrite children_append. reflexivity.
Qed.

Lemma init_tree_witness :
  ∃ container,
    childContainerOf sample_host (treeView (state browsing)) "/"
      = Returned (Some ([0; 1], container)) ∧
    children container
    = map (treeNode 0 "/")
        [{| type := folder; name := "docs";
            modified := "2024-05-01T10:00:00.000Z"; size := None |};
         {| type := file; name := "a.txt";
            modified := "2024-05-02T08:30:00.000Z"; size := Some 12%Z |}].
Proof.
  refine (proj1 (proj2 (init_tree sample_host fresh _ _))).
  reflexivity.
Defined.

(** A modification that leaves the child nodes of the element alone
    leaves every element of the view with as many child elements. *)
Lemma get_modifyAt_children r f e r' c :
  (∀ d, childNodes (f d) = childNodes d) →
  get e r' = Some c →
  ∃ c', get (modifyAt r f e) r' = Some c' ∧
        length (children c') = length (children c).
Proof.
  intros Hf. revert e r' c. induction r as [|i r IH]; intros e r' c Hget.
  - cbn [modifyAt]. destruct r' as [|j r'].
    + injection Hget as <-. exists (f e). split; [done|].
      unfold children. by rewrite Hf.
    + exists c. split; [|done]. cbn [get] in *. by rewrite Hf.
  - destruct r' as [|j r'].
    + injection Hget as <-. eexists. split; [reflexivity|].
      cbn [modifyAt]. unfold children. cbn [childNodes].
      generalize (childNodes e). intros ns. revert i.
      induction ns as [|[t|d] ns IHns]; intros [|i]; cbn; auto.
    + cbn [get modifyAt childNodes] in *.
      destruct (decide (i = j)) as [->|Hne].
      * rewrite list_lookup_alter_eq.
        destruct (childNodes e !! j) as [[t|d]|]; cbn in *; [done| |done].
        by apply IH.
      * rewrite list_lookup_alter_ne by done. by exists c.
Qed.

Lemma toggledTree_children view itemRef treeItem expand ref c :
  get view ref = Some c →
  ∃ c', get (toggledTree view itemRef treeItem expand) ref = Some c' ∧
        length (children c') = length (children c).
Proof.
  intros Hget. unfold toggledTree.
  destruct (get_modifyAt_children itemRef (classList_toggle "open" expand)
              view ref c (classList_toggle_childNodes _ _) Hget) as (c1 & Hc1 & Hlen1).
  destruct (querySelector (ByClasses ["folder-icon"]) treeItem) as [[iconRef ?]|].
  - destruct (get_modifyAt_children (itemRef ++ iconRef)
                (classList_toggle "open" expand) _ ref c1
                (classList_toggle_childNodes _ _) Hc1) as (c2 & Hc2 & Hlen2).
    exists c2. split; [done|congruence].
  - by exists c1.
Qed.

(** X17. Expanding a folder whose child container is empty loads it: for a
    path with at least one segment, when the call expands, the program's
    selector finds the tree item of the path, the child container inside
    it has no child elements and the request resolves to a listing, the
    call completes with the path expanded and the container holding
    exactly one tree node per item of the listing, in order, each with the
    data path [buildPath] gives its name below the folder. *)
Theorem toggleFolderExpansion_loads host path force w ref container data :
  filter Js.Boolean (Js.split "/" path) ≠ [] →
  shouldExpand (state w) path force = true →
  childContainerOf host (treeView (state w)) path = Returned (Some (ref, container)) →
  children container = [] →
  respond host (length (requests w)) path = FetchResolved data →
  let level := length (filter Js.Boolean (Js.split "/" path)) in
  fst (toggleFolderExpansion host path force w) = Fulfilled () ∧
  path ∈ expandedFolders (state (snd (toggleFolderExpansion host path force w))) ∧
  (∃ container',
      get (treeView (state (snd (toggleFolderExpansion host path force w)))) ref
        = Some container' ∧
      children container' = map (treeNode level path) data) ∧
  (∀ item, dataPath (attrs (treeNode level path item))
           = Some (buildPath (name item) path)).
Proof.
  intros Hlevel Hexpand Hcontainer Hempty Hdata. cbv zeta.
  assert (Hroot : path ≠ "/") by (by intros ->).
  rewrite toggleFolderExpansion_unfold by done. cbv zeta.
  destruct (childContainerOf_found _ _ _ _ _ Hcontainer)
    as (itemRef & treeItem & containerRef & -> & -> & -> & Hget).
  rewrite Hexpand, Hempty. cbn [andb length].
  rewrite (bool_decide_eq_true_2 (0 = 0)) by done. rewrite Hdata.
  cbn [fst snd state treeView expandedFolders updateListViewExpansion
       setListView setTreeView toggled setExpandedFolders].
  split; [done|]. split.
  { apply elem_of_union. left. by apply elem_of_singleton. }
  split; [|intros item; apply treeNode_dataPath].
  rewrite get_modifyAt.
  destruct (toggledTree_children _ itemRef treeItem true _ _ Hget)
    as (c' & -> & Hlen).
  eexists. split; [reflexivity|].
  unfold updateTreeView. rewrite bool_decide_eq_false_2.
  2:{ by destruct (filter Js.Boolean (Js.split "/" path)). }
  rewrite children_append.
  rewrite Hempty in Hlen. by destruct (children c').
Qed.

Lemma toggleFolderExpansion_loads_witness :
  ∃ container',
    get (treeView (state (snd (toggleFolderExpansion sample_host "/docs" None browsing))))
      [0; 1; 0; 1] = Some container' ∧
    children container'
    = map (treeNode 1 "/docs")
        [{| type := folder; name := "sub";
            modified := "2024-05-03T09:00:00.000Z"; size := None |}].
Proof.
  refine (proj1 (proj2 (proj2 (toggleFolderExpansion_loads sample_host "/docs" None
    browsing [0; 1; 0; 1] (createElement "div"
      {| className := Some "tree-children"; textContent_ := None; style_ := None |})
    _ _ _ _ _ _)))).
  - discriminate.
  - vm_compute. reflexivity.
  - vm_compute. reflexivity.
  - reflexivity.
  - reflexivity.
Defined.

(** *** Finding the tree item of a path *)

Lemma treeItemOf_plain_query host view path :
  Css.plain path = true →
  treeItemOf host view path = Returned (querySelector (ByDataPath path) view).
Proof.
  intros Hplain. unfold treeItemOf, querySelectorText.
  by rewrite CssFacts.attributeSelector_plain.
Qed.

(** X18. For a path without double quote, backslash, line break and null
    character, the program's selector names the path itself: the lookup
    of the tree item does not throw and does not depend on the host; what
    it returns is an element of the view whose data path is the path; and
    it returns one whenever the view holds such an element. *)
Theorem treeItemOf_plain host view path :
  Css.plain path = true →
  treeItemOf host view path = Returned (querySelector (ByDataPath path) view) ∧
  (∀ ref item,
      treeItemOf host view path = Returned (Some (ref, item)) →
      get view ref = Some item ∧ dataPath (attrs item) = Some path) ∧
  ((∃ ref item, ref ≠ [] ∧ get view ref = Some item ∧
                dataPath (attrs item) = Some path) →
   ∃ ref item, treeItemOf host view path = Returned (Some (ref, item))).
Proof.
  intros Hplain. rewrite treeItemOf_plain_query by done.
  split; [done|]. split.
  - intros ref item [= H]. apply querySelector_get in H as [Hget Hm].
    split; [done|]. cbn in Hm. by apply bool_decide_eq_true in Hm.
  - intros (ref & item & Hne & Hget & Hpath).
    apply get_walk in Hget; [|done].
    assert (Hin : (ref, item) ∈ querySelectorAll (ByDataPath path) view).
    { apply list_elem_of_In, filter_In. split; [by apply list_elem_of_In|].
      cbn. by apply bool_decide_eq_true. }
    unfold querySelector.
    destruct (querySelectorAll (ByDataPath path) view) as [|[ref' item'] rest];
      [by apply elem_of_nil in Hin|by do 2 eexists].
Qed.

Lemma treeItemOf_plain_witness :
  ∃ ref item,
    treeItemOf sample_host (treeView (state browsing)) "/docs"
      = Returned (Some (ref, item)) ∧
    get (treeView (state browsing)) ref = Some item ∧
    dataPath (attrs item) = Some "/docs".
Proof.
  destruct (treeItemOf_plain sample_host (treeView (state browsing)) "/docs"
              eq_refl) as (_ & Hfound & Hfinds).
  destruct Hfinds as (ref & item & Hitem).
  { exists [0; 1; 0]. eexists. split; [done|]. split; reflexivity. }
  exists ref, item. split; [exact Hitem|]. by apply Hfound.
Defined.

(** *** Lazy loading *)

(** X19. For a path other than the root, [toggleFolderExpansion] sends a
    request for the folder's contents exactly when it expands and the
    program finds a child container for the path that has no child
    elements; it sends nothing else. When it collapses it sends no
    request and leaves the child container it finds, if any, without
    child nodes. *)
Theorem toggleFolderExpansion_lazy host path force w :
  path ≠ "/" →
  let st := state w in
  let expand := shouldExpand st path force in
  let w' := snd (toggleFolderExpansion host path force w) in
  let containerEmpty :=
    match childContainerOf host (treeView st) path with
    | Returned (Some (_, container)) =>
        bool_decide (length (children container) = 0)
    | _ => false
    end in
  requests w' = requests w ++ (if expand && containerEmpty then [path] else []) ∧
  (expand = false →
     requests w' = requests w ∧
     ∀ ref container,
       childContainerOf host (treeView st) path = Returned (Some (ref, container)) →
       ∃ container',
         get (treeView (state w')) ref = Some container' ∧
         childNodes container' = []).
Proof.
  intros Hroot. cbv zeta. rewrite toggleFolderExpansion_unfold by done.
  cbv zeta. unfold childContainerOf.
  destruct (treeItemOf host (treeView (state w)) path)
    as [|[[itemRef treeItem]|]] eqn:Hitem; cbn [mbind option_bind].
  1,3: rewrite andb_false_r, app_nil_r; split; [done|]; intros _;
       split; [done|]; intros ?? [=].
  destruct (querySelector (ByClasses ["tree-children"]) treeItem)
    as [[containerRef container]|] eqn:Hcontainer; cbn [mbind option_bind].
  2:{ rewrite andb_false_r, app_nil_r. split; [done|]. intros _. split; [done|].
      intros ?? [=]. }
  destruct (shouldExpand (state w) path force) eqn:Hexpand; cbn [andb negb].
  - split; [|done].
    destruct (bool_decide (length (children container) = 0)).
    + by destruct (respond host (length (requests w)) path).
    + by rewrite app_nil_r.
  - rewrite app_nil_r. split; [done|]. intros _. split; [done|].
    intros ref c [= <- <-]. cbn [snd state treeView updateListViewExpansion
      setListView setTreeView].
    rewrite get_modifyAt.
    assert (Hget : is_Some (get (treeView (state w)) (itemRef ++ containerRef))).
    { rewrite get_app. apply treeItemOf_get in Hitem as ->.
      apply querySelector_get in Hcontainer as [Hc _]. cbn. by rewrite Hc. }
    apply (toggledTree_get _ itemRef treeItem false) in Hget as [c' Hc'].
    rewrite Hc'. by exists (clearInnerHTML c').
Qed.

Lemma toggleFolderExpansion_lazy_witness :
  let expanded := snd (toggleFolderExpansion sample_host "/docs" None browsing) in
  let collapsed := snd (toggleFolderExpansion sample_host "/docs" None expanded) in
  requests expanded = requests browsing ++ ["/docs"] ∧
  requests collapsed = requests expanded ∧
  ∃ container',
    get (treeView (state collapsed)) [0; 1; 0; 1] = Some container' ∧
    childNodes container' = [].
Proof.
  cbv zeta. assert (Hroot : "/docs" ≠ "/") by discriminate.
  split.
  - exact (proj1 (toggleFolderExpansion_lazy sample_host "/docs" None browsing Hroot)).
  - destruct (proj2 (toggleFolderExpansion_lazy sample_host "/docs" None
        (snd (toggleFolderExpansion sample_host "/docs" None browsing)) Hroot))
      as [Hsame Hcleared]; [vm_compute; reflexivity|].
    split; [exact Hsame|].
    eapply Hcleared. vm_compute. reflexivity.
Defined.

End ExplorerLaws.
